(** * dns_reverse_proxy: routing, transfer authorisation and forwarding

    A shallow embedding of [dns_reverse_proxy.go].  Go strings are byte
    strings and are modelled by [string]; Go [int]s used as indices are
    modelled by [Z]; the package-level map [routes] is a [gmap string string];
    the handlers [route] and [proxy], which only act on the response writer
    and on the network, are modelled by the trace of actions they perform. *)

From Stdlib Require Import ZArith Ascii String List Bool Lia.
From stdpp Require Import base gmap strings list fin_maps.

Local Open Scope Z_scope.

(** ** Byte strings *)

Module GoString.

(** [len(s)] *)
Definition len (s : string) : Z := Z.of_nat (String.length s).

(** [s[n:]] for [0 <= n]; the slice is empty past the end (the callers
    below never slice past the end, where Go would panic). *)
Fixpoint slice_from (n : nat) (s : string) : string :=
  match n, s with
  | O, _ => s
  | S n', String _ s' => slice_from n' s'
  | S _, EmptyString => EmptyString
  end.

(** [s[:n]] *)
Fixpoint slice_to (n : nat) (s : string) : string :=
  match n, s with
  | O, _ => EmptyString
  | S n', String a s' => String a (slice_to n' s')
  | S _, EmptyString => EmptyString
  end.

(** [s[i:j]] *)
Definition slice (i j : Z) (s : string) : string :=
  slice_from (Z.to_nat i) (slice_to (Z.to_nat j) s).

(** [bytealg.IndexByteString]: index of the first [c] in [s], or [-1]. *)
Fixpoint IndexByteString (s : string) (c : ascii) : Z :=
  match s with
  | EmptyString => -1
  | String a s' =>
      if Ascii.eqb a c then 0
      else let i := IndexByteString s' c in
           if i <? 0 then -1 else i + 1
  end.

(** [bytealg.LastIndexByteString]: index of the last [c] in [s], or [-1]. *)
Fixpoint LastIndexByteString (s : string) (c : ascii) : Z :=
  match s with
  | EmptyString => -1
  | String a s' =>
      let i := LastIndexByteString s' c in
      if 0 <=? i then i + 1
      else if Ascii.eqb a c then 0 else -1
  end.

(** [strings.Count(s, sep)] for a one-byte separator. *)
Fixpoint CountByte (s : string) (c : ascii) : Z :=
  match s with
  | EmptyString => 0
  | String a s' => (if Ascii.eqb a c then 1 else 0) + CountByte s' c
  end.

(** [strings.HasSuffix]:
    [len(s) >= len(suffix) && s[len(s)-len(suffix):] == suffix]. *)
Definition HasSuffix (s suffix : string) : bool :=
  (len suffix <=? len s)
  && String.eqb (slice_from (Z.to_nat (len s - len suffix)) s) suffix.

(** The loop of [strings.genSplit] for a one-byte separator, after [n--]:
    at most [n] cuts are made, at the successive occurrences of [sep]. *)
Fixpoint genSplit_loop (n : nat) (s : string) (sep : ascii) : list string :=
  match n with
  | O => [s]
  | S n' =>
      let m := IndexByteString s sep in
      if m <? 0 then [s]
      else slice 0 m s :: genSplit_loop n' (slice_from (Z.to_nat (m + 1)) s) sep
  end.

(** [strings.genSplit(s, sep, 0, n)] for a one-byte separator. *)
Definition genSplit (s : string) (sep : ascii) (n : Z) : list string :=
  if n =? 0 then []
  else
    let n := if n <? 0 then CountByte s sep + 1 else n in
    let n := if len s + 1 <? n then len s + 1 else n in
    genSplit_loop (Z.to_nat (n - 1)) s sep.

(** [strings.Split(s, sep)] *)
Definition Split (s : string) (sep : ascii) : list string := genSplit s sep (-1).

(** [strings.SplitN(s, sep, n)] *)
Definition SplitN (s : string) (sep : ascii) (n : Z) : list string := genSplit s sep n.

End GoString.

Import GoString.

(** ** [net.SplitHostPort] *)

Record AddrError := { Err : string; Addr : string }.

Definition addrErr (addr why : string) : string * string * option AddrError :=
  (EmptyString, EmptyString, Some {| Err := why; Addr := addr |}).

Definition missingPort : string := "missing port in address".
Definition tooManyColons : string := "too many colons in address".

(** The last two checks of [net.SplitHostPort], shared by both branches:
    no ['['] from position [j] on, no [']'] from position [k] on, and the
    port is what follows the last colon, at position [i]. *)
Definition SplitHostPort_tail (hostport host : string) (i j k : Z)
  : string * string * option AddrError :=
  if 0 <=? IndexByteString (slice_from (Z.to_nat j) hostport) "["
  then addrErr hostport "unexpected '[' in address"
  else if 0 <=? IndexByteString (slice_from (Z.to_nat k) hostport) "]"
  then addrErr hostport "unexpected ']' in address"
  else (host, slice_from (Z.to_nat (i + 1)) hostport, None).

Definition SplitHostPort (hostport : string) : string * string * option AddrError :=
  let i := LastIndexByteString hostport ":" in
  if i <? 0 then addrErr hostport missingPort
  else
    match hostport with
    | String "[" _ =>
        let e := IndexByteString hostport "]" in
        if e <? 0 then addrErr hostport "missing ']' in address"
        else if e + 1 =? len hostport then addrErr hostport missingPort
        else if e + 1 =? i then
          SplitHostPort_tail hostport (slice 1 e hostport) i 1 (e + 1)
        else if String.eqb (slice (e + 1) (e + 2) hostport) ":"
        then addrErr hostport tooManyColons
        else addrErr hostport missingPort
    | _ =>
        let host := slice 0 i hostport in
        if 0 <=? IndexByteString host ":" then addrErr hostport tooManyColons
        else SplitHostPort_tail hostport host i 0 0
    end.

(** ** DNS messages and the response writer (the parts the proxy reads) *)

(** [dns.TypeIXFR] and [dns.TypeAXFR], values of the 16-bit [Qtype]. *)
Definition TypeIXFR : Z := 251.
Definition TypeAXFR : Z := 252.

(** [dns.Question] *)
Record Question := { Name : string; Qtype : Z; Qclass : Z }.

(** A resource record, as far as the proxy is concerned: it only relays them. *)
Record RR := { Hdr_Name : string; Hdr_Rrtype : Z; Rdata : string }.

(** [dns.Msg]: the identifier, the question section and the answer section. *)
Record Msg := { Id : Z; Questions : list Question; Answer : list RR }.

(** [dns.Envelope]: one message worth of records of a zone transfer. *)
Record Envelope := { Envelope_RR : list RR; Envelope_Error : option string }.

(** [net.Addr]: the dynamic type of the address and what [String()] returns. *)
Inductive NetAddr :=
| TCPAddr (s : string)
| UDPAddr (s : string)
| OtherAddr (s : string).

Definition Addr_String (a : NetAddr) : string :=
  match a with TCPAddr s | UDPAddr s | OtherAddr s => s end.

(** The [ok] of the type assertion of [a] to a pointer to [net.TCPAddr]. *)
Definition is_TCPAddr (a : NetAddr) : bool :=
  match a with TCPAddr _ => true | _ => false end.

(** [dns.ResponseWriter], of which the proxy reads [RemoteAddr()]. *)
Record ResponseWriter := { RemoteAddr : NetAddr }.

(** The actions a handler performs, in order.  [EvHandleFailed req] is the
    call [dns.HandleFailed(w, req)], which answers [req] with SERVFAIL, the
    standard failure response; [EvExchange net req addr] is one
    [Exchange(req, addr)] of a [dns.Client] whose [Net] is [net];
    [EvWriteMsg resp] is [w.WriteMsg(resp)]; [EvTransferIn req addr] is the
    call [t.In(req, addr)] of a [dns.Transfer], which opens the transfer
    with the upstream unless it fails first, and [EvTransferOut req c] is
    the call [t.Out(w, req, c)], which relays the envelopes of [c] to the
    client. *)
Inductive Event :=
| EvHandleFailed (req : Msg)
| EvExchange (net : string) (req : Msg) (addr : string)
| EvWriteMsg (resp : Msg)
| EvTransferIn (req : Msg) (addr : string)
| EvTransferOut (req : Msg) (c : list Envelope).

(** What the network answers: the result of [Client.Exchange], of
    [Transfer.In] and of [Transfer.Out] ([None] is a nil error), for the
    calls that return.  A call that does not return, because the library
    panics while it serves the transfer, has no outcome here: the
    properties of a transfer over TCP are stated under what [Transfer.In]
    and [Transfer.Out] return, and no property says that such a transfer
    comes to an end. *)
Record Network := {
  Exchange : string -> Msg -> string -> Msg + string;
  Transfer_In : Msg -> string -> list Envelope + string;
  Transfer_Out : ResponseWriter -> Msg -> list Envelope -> option string
}.

(** An action that contacts an upstream server. *)
Definition contacts_upstream (e : Event) : bool :=
  match e with
  | EvExchange _ _ _ | EvTransferIn _ _ => true
  | _ => false
  end.

(** An action that relays zone-transfer data to the client. *)
Definition relays_transfer (e : Event) : bool :=
  match e with
  | EvTransferOut _ _ => true
  | _ => false
  end.

(** ** The program *)

Definition publicServer : list string :=
  [ "1.1.1.1:53"; "8.8.8.8:53"; "8.8.4.4:53"; "209.244.0.3"; "209.244.0.4"; "64.6.64.6"; "64.6.65.6";
    "9.9.9.9:53"; "149.112.112.112:53"; "84.200.69.80:53"; "84.200.70.40:53"; "8.26.56.26:53"; "8.20.247.20:53"; "208.67.222.222:53";
    "208.67.220.220"; "199.85.126.10:53"; "199.85.127.10:53"; "81.218.119.11:53"; "209.88.198.133:53"; "195.46.39.39:53"; "195.46.39.40:53";
    "69.195.152.204:53"; "23.94.60.240:53"; "208.76.50.50:53"; "208.76.51.51:53"; "216.146.35.35:53"; "216.146.36.36:53";
    "37.235.1.174:53"; "37.235.1.177:53"; "198.101.242.72:53"; "23.253.163.53:53"; "77.88.8.8:53"; "77.88.8.1:53"; "91.239.100.100:53" ].

(** [rand.Intn(n)]: panics ([None]) when [n <= 0]; otherwise the draw [v] of
    the random source, reduced to [0 <= v mod n < n]. *)
Definition rand_Intn (v : Z) (n : Z) : option Z :=
  if n <=? 0 then None else Some (v mod n).

(** [xs[i]]: a run-time panic ([None]) out of range. *)
Definition index {A} (xs : list A) (i : Z) : option A :=
  if (0 <=? i) && (i <? Z.of_nat (length xs)) then xs !! Z.to_nat i else None.

(** [v] is the draw of the random source for this call. *)
Definition randomPublicServer (v : Z) : option string :=
  match rand_Intn v (Z.of_nat (length publicServer)) with
  | Some i => index publicServer i
  | None => None
  end.

Definition validHostPort (s : string) : bool :=
  match SplitHostPort s with
  | (host, port, err) =>
      if (match err with Some _ => true | None => false end)
         || String.eqb host "" || String.eqb port ""
      then false else true
  end.

(** The body of the loop of [main] over the [-route] entries: [None] is
    [log.Fatal]. *)
Definition main_route (routes : gmap string string) (s : string)
  : option (gmap string string) :=
  match SplitN s "=" 2 with
  | [s0; s1] =>
      if negb (validHostPort s1) then None
      else
        let s0 := if negb (HasSuffix s0 ".") then s0 +:+ "." else s0 in
        Some (<[s0 := s1]> routes)
  | _ => None
  end.

Fixpoint main_routes_loop (routes : gmap string string) (l : list string)
  : option (gmap string string) :=
  match l with
  | [] => Some routes
  | s :: l' =>
      match main_route routes s with
      | Some routes' => main_routes_loop routes' l'
      | None => None
      end
  end.

(** The value of the global [routes] after [main] has read [-route]. *)
Definition main_routes (routeList : string) : option (gmap string string) :=
  if negb (String.eqb routeList "")
  then main_routes_loop ∅ (Split routeList ",")
  else Some ∅.

(** The value of the global [transferIPs] after [main] has read
    [-allow-transfer]. *)
Definition main_transferIPs (allowTransfer : string) : list string :=
  Split allowTransfer ",".

(** The loop of [isTransfer] over the question section. *)
Fixpoint isTransfer_loop (qs : list Question) : bool :=
  match qs with
  | [] => false
  | q :: qs' =>
      if (Qtype q =? TypeIXFR) || (Qtype q =? TypeAXFR) then true
      else isTransfer_loop qs'
  end.

Definition isTransfer (req : Msg) : bool := isTransfer_loop (Questions req).

Section Handler.

(** The globals set by [main]. *)
Variable routes : gmap string string.
Variable transferIPs : list string.

(** The order in which [range] yields the entries of a map on this call (Go
    leaves it unspecified: the properties below assume only that it yields
    each entry of the map once), and the draw of the random source. *)
Variable range_map : gmap string string -> list (string * string).
Variable rand_draw : Z.

Variable net : Network.

Definition HandleFailed (w : ResponseWriter) (req : Msg) : list Event :=
  [EvHandleFailed req].

(** The loop of [allowed] over the allow-list. *)
Fixpoint allowed_loop (ips : list string) (remote : string) : bool :=
  match ips with
  | [] => false
  | ip :: ips' => if String.eqb ip remote then true else allowed_loop ips' remote
  end.

Definition allowed (w : ResponseWriter) (req : Msg) : bool :=
  if negb (isTransfer req) then true
  else
    let '(remote, _, _) := SplitHostPort (Addr_String (RemoteAddr w)) in
    allowed_loop transferIPs remote.

Definition proxy (addr : string) (w : ResponseWriter) (req : Msg) : list Event :=
  let transport := if is_TCPAddr (RemoteAddr w) then "tcp" else "udp" in
  if isTransfer req then
    if negb (String.eqb transport "tcp") then HandleFailed w req
    else
      EvTransferIn req addr ::
      match Transfer_In net req addr with
      | inr _ => HandleFailed w req
      | inl c =>
          EvTransferOut req c ::
          match Transfer_Out net w req c with
          | Some _ => HandleFailed w req
          | None => []
          end
      end
  else
    EvExchange transport req addr ::
    match Exchange net transport req addr with
    | inr _ => HandleFailed w req
    | inl resp => [EvWriteMsg resp]
    end.

(** The loop of [route] over the routing table: the address of the first
    entry, in the order of the iteration, whose key is a suffix of [qname]. *)
Fixpoint route_loop (l : list (string * string)) (qname : string) : option string :=
  match l with
  | [] => None
  | (name, addr) :: l' =>
      if HasSuffix qname name then Some addr else route_loop l' qname
  end.

(** The upstream [route] hands to [proxy] for a query on [qname]: [None]
    is a run-time panic. *)
Definition route_upstream (qname : string) : option string :=
  match route_loop (range_map routes) qname with
  | Some addr => Some addr
  | None => randomPublicServer rand_draw
  end.

(** [None] is a run-time panic. *)
Definition route (w : ResponseWriter) (req : Msg) : option (list Event) :=
  if (length (Questions req) =? 0)%nat || negb (allowed w req)
  then Some (HandleFailed w req)
  else
    match Questions req with
    | [] => None
    | q0 :: _ =>
        match route_upstream (Name q0) with
        | Some addr => Some (proxy addr w req)
        | None => None
        end
    end.

End Handler.

(** ** Vocabulary of the properties *)

(** Every key of the routing table ends with the label separator. *)
Definition keys_end_with_dot (routes : gmap string string) : Prop :=
  forall name addr, routes !! name = Some addr -> HasSuffix name "." = true.

(** The host part of the client's address, as [allowed] computes it: what
    [net.SplitHostPort] returns for the host, the empty string on an error. *)
Definition remote_host (w : ResponseWriter) : string :=
  (SplitHostPort (Addr_String (RemoteAddr w))).1.1.

(** The transport [proxy] uses for an ordinary query. *)
Definition inbound_transport (w : ResponseWriter) : string :=
  if is_TCPAddr (RemoteAddr w) then "tcp" else "udp".

(** The number of upstream contacts in a trace. *)
Definition upstream_contacts (tr : list Event) : nat :=
  length (List.filter contacts_upstream tr).

(** Sample inputs: a network whose upstreams answer, one whose upstreams are
    unreachable, a zone-transfer query and an address query. *)
Definition sample_net : Network :=
  {| Exchange := fun _ q _ => inl {| Id := Id q; Questions := Questions q;
                                     Answer := [{| Hdr_Name := "example.com.";
                                                   Hdr_Rrtype := 1;
                                                   Rdata := "192.0.2.7" |}] |};
     Transfer_In := fun _ _ => inl [];
     Transfer_Out := fun _ _ _ => None |}.

Definition dead_net : Network :=
  {| Exchange := fun _ _ _ => inr "i/o timeout";
     Transfer_In := fun _ _ => inr "connection refused";
     Transfer_Out := fun _ _ _ => Some "broken pipe" |}.

Definition axfr_query (name : string) : Msg :=
  {| Id := 11;
     Questions := [{| Name := name; Qtype := TypeAXFR; Qclass := 1 |}];
     Answer := [] |}.

Definition a_query (name : string) : Msg :=
  {| Id := 12;
     Questions := [{| Name := name; Qtype := 1; Qclass := 1 |}];
     Answer := [] |}.

(** [c] does not occur in [s]. *)
Definition lacks (c : ascii) (s : string) : Prop := IndexByteString s c = -1.

(** The key under which [main] stores a route written for the domain [s0]. *)
Definition route_key (s0 : string) : string :=
  if negb (HasSuffix s0 ".") then s0 +:+ "." else s0.

(** The strings of [l] with [sep] between them. *)
Fixpoint join_with (sep : ascii) (l : list string) : string :=
  match l with
  | [] => ""
  | [s] => s
  | s :: l' => s +:+ String sep (join_with sep l')
  end.

(** The address [a] reads [h:p], or [[h]:p] as IPv6 addresses do: [h] is
    its host and [p] its port.  The port has no colon and no bracket, the
    host no bracket, and no colon unless it is bracketed. *)
Definition host_port (a h p : string) : Prop :=
  lacks "[" h /\ lacks "]" h
  /\ lacks ":" p /\ lacks "[" p /\ lacks "]" p
  /\ ((a = h +:+ String ":" p /\ lacks ":" h)
      \/ a = String "[" (h +:+ String "]" (String ":" p))).



(** [s] cut at every occurrence of [sep], by recursion on [s]: what
    [strings.Split] computes with its index loop. *)
Fixpoint split_at_each (sep : ascii) (s : string) : list string :=
  match s with
  | EmptyString => [EmptyString]
  | String a s' =>
      if Ascii.eqb a sep then EmptyString :: split_at_each sep s'
      else match split_at_each sep s' with
           | h :: t => String a h :: t
           | [] => [String a EmptyString]
           end
  end.

(** An entry of [-route] that [main] accepts. *)
Definition well_formed_entry (s : string) : Prop :=
  exists s0 s1, s = s0 +:+ String "=" s1 /\ lacks "=" s0 /\ validHostPort s1 = true.


(** The handler calls [Transfer.In]: it attempts a zone transfer. *)
Definition calls_Transfer_In (tr : list Event) : bool :=
  existsb (fun e => match e with EvTransferIn _ _ => true | _ => false end) tr.

(** * Properties *)

(** ** The library functions on concrete inputs *)

Example SplitHostPort_v4 : SplitHostPort "1.2.3.4:5353" = ("1.2.3.4", "5353", None).
Proof. reflexivity. Qed.

Example SplitHostPort_v6 : SplitHostPort "[::1]:53" = ("::1", "53", None).
Proof. reflexivity. Qed.

Example SplitHostPort_noport :
  SplitHostPort "209.244.0.3"
  = ("", "", Some {| Err := missingPort; Addr := "209.244.0.3" |}).
Proof. reflexivity. Qed.

Example SplitHostPort_colons :
  SplitHostPort "::1:53" = ("", "", Some {| Err := tooManyColons; Addr := "::1:53" |}).
Proof. reflexivity. Qed.

Example HasSuffix_sub : HasSuffix "subdomain.example.com." ".example.com." = true.
Proof. reflexivity. Qed.

Example Split_ex : Split "a=b,c=d,," "," = ["a=b"; "c=d"; ""; ""].
Proof. reflexivity. Qed.

Example Split_empty : Split "" "," = [""].
Proof. reflexivity. Qed.

Example SplitN_ex : SplitN "a=b=c" "=" 2 = ["a"; "b=c"].
Proof. reflexivity. Qed.

Example SplitN_none : SplitN "abc" "=" 2 = ["abc"].
Proof. reflexivity. Qed.

Example main_routes_ex :
  main_routes "example.com=8.8.4.4:53,.example.net.=1.1.1.1:53"
  = Some (<[".example.net." := "1.1.1.1:53"]> {["example.com." := "8.8.4.4:53"]}).
Proof. vm_compute. reflexivity. Qed.

Example main_routes_fatal : main_routes "example.com=8.8.4.4" = None.
Proof. reflexivity. Qed.

Example map_to_list_ex :
  map_to_list ({["example.com." := "8.8.4.4:53"]} : gmap string string)
  = [("example.com.", "8.8.4.4:53")].
Proof. vm_compute. reflexivity. Qed.

(** ** Slices and suffixes *)

Lemma app_cons (a : ascii) (p s : string) : String a p +:+ s = String a (p +:+ s).
Proof. reflexivity. Qed.

Lemma length_app (p s : string) :
  String.length (p +:+ s) = (String.length p + String.length s)%nat.
Proof.
  induction p as [|a p IH]; [reflexivity|].
  rewrite app_cons. cbn. by rewrite IH.
Qed.

Lemma slice_from_app (p s : string) : slice_from (String.length p) (p +:+ s) = s.
Proof. induction p as [|a p IH]; [reflexivity|]. rewrite app_cons. exact IH. Qed.

Lemma slice_to_from (n : nat) (s : string) : slice_to n s +:+ slice_from n s = s.
Proof.
  revert s. induction n as [|n IH]; intros [|a s]; try reflexivity.
  cbn [slice_to slice_from]. rewrite app_cons. by rewrite IH.
Qed.

(** [strings.HasSuffix] holds exactly of the strings that end with [suffix]:
    a comparison of trailing bytes, wherever the labels of a name begin. *)
Lemma HasSuffix_spec (s suffix : string) :
  HasSuffix s suffix = true <-> exists p, s = p +:+ suffix.
Proof.
  unfold HasSuffix, len. split.
  - intros [_ E%String.eqb_eq]%andb_true_iff.
    set (n := Z.to_nat (Z.of_nat (String.length s) - Z.of_nat (String.length suffix))) in *.
    exists (slice_to n s). rewrite <- E. symmetry. apply slice_to_from.
  - intros [p ->]. rewrite length_app. apply andb_true_iff. split.
    + apply Z.leb_le. lia.
    + apply String.eqb_eq.
      replace (Z.to_nat _) with (String.length p) by lia.
      apply slice_from_app.
Qed.

Lemma HasSuffix_app (p suffix : string) : HasSuffix (p +:+ suffix) suffix = true.
Proof. apply HasSuffix_spec. by exists p. Qed.

(** ** The routing table built by [main] *)

Lemma main_route_keys routes s routes' :
  keys_end_with_dot routes ->
  main_route routes s = Some routes' ->
  keys_end_with_dot routes'.
Proof.
  unfold main_route. intros Hinv H.
  destruct (SplitN s "=" 2) as [|s0 [|s1 [|? ?]]]; try discriminate.
  destruct (validHostPort s1); [|discriminate]. cbn in H.
  injection H as <-. intros name addr.
  rewrite lookup_insert. case_decide as E; [|apply Hinv].
  intros _. subst name.
  destruct (HasSuffix s0 ".") eqn:Hs; cbn; [exact Hs|apply HasSuffix_app].
Qed.

Lemma main_routes_loop_keys l : forall routes routes',
  keys_end_with_dot routes ->
  main_routes_loop routes l = Some routes' ->
  keys_end_with_dot routes'.
Proof.
  induction l as [|s l IH]; intros routes routes' Hinv H; cbn in H.
  - by injection H as <-.
  - destruct (main_route routes s) as [r1|] eqn:E; [|discriminate].
    eapply IH; [|exact H]. eapply main_route_keys; eauto.
Qed.

Lemma main_routes_keys routeList routes :
  main_routes routeList = Some routes -> keys_end_with_dot routes.
Proof.
  unfold main_routes. destruct (negb _).
  - apply main_routes_loop_keys. intros name addr. by rewrite lookup_empty.
  - intros [= <-] name addr. by rewrite lookup_empty.
Qed.

(** ** The query classifier *)

Lemma isTransfer_loop_spec (qs : list Question) :
  isTransfer_loop qs = true
  <-> exists q, q ∈ qs /\ (Qtype q = TypeAXFR \/ Qtype q = TypeIXFR).
Proof.
  induction qs as [|q qs IH]; cbn [isTransfer_loop].
  - split; [discriminate|]. intros (q & Hq & _). by apply elem_of_nil in Hq.
  - destruct ((Qtype q =? TypeIXFR) || (Qtype q =? TypeAXFR)) eqn:E.
    + split; [intros _|reflexivity]. exists q. split; [apply list_elem_of_here|].
      apply orb_true_iff in E as [E%Z.eqb_eq|E%Z.eqb_eq]; auto.
    + apply orb_false_iff in E as [E1%Z.eqb_neq E2%Z.eqb_neq].
      rewrite IH. split.
      * intros (q' & Hq' & Ht). exists q'. split; [by apply list_elem_of_further|exact Ht].
      * intros (q' & Hq' & Ht). apply elem_of_cons in Hq' as [->|Hq'].
        -- destruct Ht; contradiction.
        -- by exists q'.
Qed.

(** C8. For a query with at least one question entry (and for the one with
    none as well), [isTransfer] reports a zone transfer if and only if at
    least one question entry has record type AXFR or IXFR.  The classifier is
    a function of the query alone: it takes no response writer and no
    network, and performs no action. *)
Theorem isTransfer_iff_axfr_or_ixfr (req : Msg) :
  isTransfer req = true
  <-> exists q, q ∈ Questions req /\ (Qtype q = TypeAXFR \/ Qtype q = TypeIXFR).
Proof. apply isTransfer_loop_spec. Qed.

Lemma isTransfer_nil (req : Msg) : Questions req = [] -> isTransfer req = false.
Proof. unfold isTransfer. by intros ->. Qed.

(** ** The transfer authoriser *)

Lemma allowed_loop_spec (ips : list string) (remote : string) :
  allowed_loop ips remote = true <-> remote ∈ ips.
Proof.
  induction ips as [|ip ips IH]; cbn [allowed_loop].
  - split; [discriminate|]. intros H. by apply elem_of_nil in H.
  - destruct (String.eqb ip remote) eqn:E.
    + apply String.eqb_eq in E as ->. split; [intros _; apply list_elem_of_here|reflexivity].
    + apply String.eqb_neq in E. rewrite IH, elem_of_cons. split.
      * intros H. by right.
      * intros [Heq|H]; [by subst|exact H].
Qed.

Lemma allowed_transfer transferIPs w req :
  isTransfer req = true ->
  allowed transferIPs w req = true <-> remote_host w ∈ transferIPs.
Proof.
  intros Ht. unfold allowed, remote_host. rewrite Ht. cbn [negb].
  destruct (SplitHostPort _) as [[remote port] err]. apply allowed_loop_spec.
Qed.

Lemma allowed_ordinary transferIPs w req :
  isTransfer req = false -> allowed transferIPs w req = true.
Proof. intros Ht. unfold allowed. by rewrite Ht. Qed.

(** ** The handler *)

Lemma route_refused routes transferIPs range_map v net w req :
  Questions req = [] \/ allowed transferIPs w req = false ->
  route routes transferIPs range_map v net w req = Some [EvHandleFailed req].
Proof.
  intros H. unfold route.
  destruct H as [-> | ->]; [reflexivity|].
  by rewrite orb_true_r.
Qed.

Lemma proxy_transfer_not_tcp net addr w req :
  isTransfer req = true -> is_TCPAddr (RemoteAddr w) = false ->
  proxy net addr w req = [EvHandleFailed req].
Proof. intros Ht Hu. unfold proxy. by rewrite Ht, Hu. Qed.

(** C6. A query with no question entry is answered at once with the standard
    failure response: it is the only action of the handler, so nothing is
    forwarded to any upstream. *)
Theorem route_empty_question routes transferIPs range_map v net w req :
  Questions req = [] ->
  route routes transferIPs range_map v net w req = Some [EvHandleFailed req]
  /\ forall tr, route routes transferIPs range_map v net w req = Some tr ->
       existsb contacts_upstream tr = false.
Proof.
  intros Hq. rewrite route_refused by auto. split; [reflexivity|].
  by intros tr [= <-].
Qed.

Lemma route_empty_question_witness :
  let req := {| Id := 7; Questions := []; Answer := [] |} in
  let w := {| RemoteAddr := UDPAddr "192.0.2.1:5353" |} in
  let net := {| Exchange := fun _ q _ => inl q;
                Transfer_In := fun _ _ => inl [];
                Transfer_Out := fun _ _ _ => None |} in
  Questions req = []
  /\ route ∅ [""] map_to_list 0 net w req = Some [EvHandleFailed req].
Proof.
  intros req w net. split; [reflexivity|].
  apply (route_empty_question ∅ [""] map_to_list 0 net w req). reflexivity.
Defined.

(** ** The upstream selector *)

Lemma index_in_range {A} (xs : list A) (i : Z) :
  0 <= i < Z.of_nat (length xs) -> exists x, index xs i = Some x /\ x ∈ xs.
Proof.
  intros Hi. unfold index.
  replace ((0 <=? i) && (i <? Z.of_nat (length xs))) with true
    by (symmetry; apply andb_true_iff; split; [apply Z.leb_le|apply Z.ltb_lt]; lia).
  destruct (lookup_lt_is_Some_2 xs (Z.to_nat i)) as [x Hx]; [lia|].
  exists x. split; [exact Hx|]. apply list_elem_of_lookup. by exists (Z.to_nat i).
Qed.

(** [randomPublicServer] never panics and returns an entry of the pool. *)
Lemma randomPublicServer_total (v : Z) :
  exists s, randomPublicServer v = Some s /\ s ∈ publicServer.
Proof.
  unfold randomPublicServer, rand_Intn.
  set (n := Z.of_nat (length publicServer)).
  assert (Hn : 0 < n) by (subst n; cbn; lia).
  replace (n <=? 0) with false by (symmetry; apply Z.leb_gt; lia).
  apply index_in_range. fold n. apply Z.mod_pos_bound. exact Hn.
Qed.

Lemma route_loop_Some l qname addr :
  route_loop l qname = Some addr ->
  exists name, (name, addr) ∈ l /\ HasSuffix qname name = true.
Proof.
  induction l as [|[name a] l IH]; cbn [route_loop]; [discriminate|].
  destruct (HasSuffix qname name) eqn:E.
  - intros [= <-]. exists name. split; [apply list_elem_of_here|exact E].
  - intros H. destruct (IH H) as (n & Hn & Hs). exists n.
    split; [by apply list_elem_of_further|exact Hs].
Qed.

Lemma route_loop_None l qname :
  route_loop l qname = None
  <-> forall name addr, (name, addr) ∈ l -> HasSuffix qname name = false.
Proof.
  induction l as [|[name a] l IH]; cbn [route_loop].
  - split; [|reflexivity]. intros _ n a H. by apply elem_of_nil in H.
  - destruct (HasSuffix qname name) eqn:E.
    + split; [discriminate|]. intros H.
      rewrite (H name a) in E by apply list_elem_of_here. discriminate.
    + rewrite IH. split.
      * intros H n a' [[= -> ->]|Hin]%elem_of_cons; [exact E|by apply (H n a')].
      * intros H n a' Hin. apply (H n a'). by apply list_elem_of_further.
Qed.

(** Whatever the order of the iteration, [range] yields the entries of the
    map. *)
Lemma elem_of_range (routes : gmap string string) (l : list (string * string)) name addr :
  l ≡ₚ map_to_list routes ->
  (name, addr) ∈ l <-> routes !! name = Some addr.
Proof. intros ->. apply elem_of_map_to_list. Qed.

(** The selector never panics: it always yields one address. *)
Lemma route_upstream_total routes range_map v qname :
  exists addr, route_upstream routes range_map v qname = Some addr.
Proof.
  unfold route_upstream. destruct (route_loop _ _) as [addr|]; [by exists addr|].
  destruct (randomPublicServer_total v) as (s & Hs & _). by exists s.
Qed.

Lemma route_upstream_no_match routes range_map v qname :
  range_map routes ≡ₚ map_to_list routes ->
  (forall name addr, routes !! name = Some addr -> HasSuffix qname name = false) ->
  route_upstream routes range_map v qname = randomPublicServer v.
Proof.
  intros Hperm Hno. unfold route_upstream.
  replace (route_loop (range_map routes) qname) with (@None string); [reflexivity|].
  symmetry. apply route_loop_None. intros name addr Hin.
  apply (Hno name addr). by apply (elem_of_range routes (range_map routes)).
Qed.

Lemma route_upstream_unique routes range_map v qname suffix upstream :
  range_map routes ≡ₚ map_to_list routes ->
  routes !! suffix = Some upstream ->
  HasSuffix qname suffix = true ->
  (forall name addr, routes !! name = Some addr -> name <> suffix ->
                     HasSuffix qname name = false) ->
  route_upstream routes range_map v qname = Some upstream.
Proof.
  intros Hperm Hin Hs Hothers. unfold route_upstream.
  destruct (route_loop (range_map routes) qname) as [addr|] eqn:E.
  - apply route_loop_Some in E as (name & Hname & Hsuf).
    apply (elem_of_range routes) in Hname; [|exact Hperm].
    destruct (decide (name = suffix)) as [->|Hne].
    + congruence.
    + rewrite (Hothers name addr Hname Hne) in Hsuf. discriminate.
  - exfalso. rewrite route_loop_None in E.
    rewrite (E suffix upstream) in Hs; [discriminate|].
    by apply (elem_of_range routes).
Qed.

(** A query that passes the two checks of [route] is handed to [proxy] with
    the upstream chosen for its first question. *)
Lemma route_accepted routes transferIPs range_map v net w req q0 qs :
  Questions req = q0 :: qs ->
  allowed transferIPs w req = true ->
  exists addr, route_upstream routes range_map v (Name q0) = Some addr
               /\ route routes transferIPs range_map v net w req
                  = Some (proxy net addr w req).
Proof.
  intros Hq Ha. destruct (route_upstream_total routes range_map v (Name q0)) as [addr Hup].
  exists addr. split; [exact Hup|].
  unfold route. rewrite Hq, Ha, Hup. reflexivity.
Qed.

(** C2. A zone-transfer query that arrives over UDP (the client's address is
    not a TCP address) is answered with the standard failure response and
    nothing else, whatever the allow-list says about the client: no transfer
    data is relayed to the client and no upstream is contacted.  The same
    holds of [proxy] alone, for every upstream. *)
Theorem transfer_over_udp_fails routes transferIPs range_map v net w req :
  isTransfer req = true ->
  is_TCPAddr (RemoteAddr w) = false ->
  route routes transferIPs range_map v net w req = Some [EvHandleFailed req]
  /\ (forall addr, proxy net addr w req = [EvHandleFailed req])
  /\ forall tr, route routes transferIPs range_map v net w req = Some tr ->
       existsb relays_transfer tr = false /\ existsb contacts_upstream tr = false.
Proof.
  intros Ht Hu.
  assert (Hp : forall addr, proxy net addr w req = [EvHandleFailed req])
    by (intros addr; by apply proxy_transfer_not_tcp).
  assert (Hr : route routes transferIPs range_map v net w req = Some [EvHandleFailed req]).
  { destruct (allowed transferIPs w req) eqn:Ha; [|apply route_refused; auto].
    destruct (Questions req) as [|q0 qs] eqn:Hq.
    - rewrite isTransfer_nil in Ht by exact Hq. discriminate.
    - destruct (route_accepted routes transferIPs range_map v net w req q0 qs Hq Ha)
        as (addr & _ & ->).
      by rewrite Hp. }
  rewrite Hr. split; [reflexivity|]. split; [exact Hp|].
  intros tr [= <-]. split; reflexivity.
Qed.

Lemma transfer_over_udp_fails_witness :
  let w := {| RemoteAddr := UDPAddr "1.2.3.4:4242" |} in
  let req := axfr_query "example.com." in
  isTransfer req = true
  /\ is_TCPAddr (RemoteAddr w) = false
  /\ route {["example.com." := "8.8.4.4:53"]} ["1.2.3.4"] map_to_list 0 sample_net w req
     = Some [EvHandleFailed req].
Proof.
  intros w req. split; [reflexivity|]. split; [reflexivity|].
  apply (transfer_over_udp_fails
           {["example.com." := "8.8.4.4:53"]} ["1.2.3.4"] map_to_list 0 sample_net w req);
    reflexivity.
Defined.

Example allowed_listed_v4 :
  allowed ["1.2.3.4"; "::1"] {| RemoteAddr := TCPAddr "1.2.3.4:4000" |}
          (axfr_query "example.com.") = true.
Proof. reflexivity. Qed.

Example allowed_listed_v6 :
  allowed ["1.2.3.4"; "::1"] {| RemoteAddr := TCPAddr "[::1]:4000" |}
          (axfr_query "example.com.") = true.
Proof. reflexivity. Qed.

(** ** The forwarder *)

Lemma proxy_ordinary net addr w req :
  isTransfer req = false ->
  proxy net addr w req
  = EvExchange (inbound_transport w) req addr ::
    match Exchange net (inbound_transport w) req addr with
    | inl resp => [EvWriteMsg resp]
    | inr _ => [EvHandleFailed req]
    end.
Proof.
  intros Ht. unfold proxy, inbound_transport. rewrite Ht.
  by destruct (Exchange net _ req addr).
Qed.

(** C7. An ordinary query is forwarded by one exchange with the chosen
    upstream, over tcp when the client's remote address is a TCP address and
    over udp otherwise.  When the exchange succeeds its reply is written to
    the client as it is; when it fails the standard failure response is
    produced.  Either way the upstream is contacted exactly once, and it is
    the upstream [route] chose: no retry, no other upstream. *)
Theorem ordinary_query_forwarded net addr w req :
  isTransfer req = false ->
  (inbound_transport w = "tcp" <-> exists s, RemoteAddr w = TCPAddr s)
  /\ (inbound_transport w = "udp" <-> forall s, RemoteAddr w <> TCPAddr s)
  /\ (forall resp, Exchange net (inbound_transport w) req addr = inl resp ->
        proxy net addr w req
        = [EvExchange (inbound_transport w) req addr; EvWriteMsg resp])
  /\ (forall err, Exchange net (inbound_transport w) req addr = inr err ->
        proxy net addr w req
        = [EvExchange (inbound_transport w) req addr; EvHandleFailed req])
  /\ upstream_contacts (proxy net addr w req) = 1%nat
  /\ (forall routes transferIPs range_map v q0 qs,
        Questions req = q0 :: qs ->
        exists up, route_upstream routes range_map v (Name q0) = Some up
                   /\ route routes transferIPs range_map v net w req
                      = Some (proxy net up w req)).
Proof.
  intros Ht. split; [|split; [|split; [|split; [|split]]]].
  - unfold inbound_transport. destruct (RemoteAddr w) as [s|s|s]; cbn.
    + split; [intros _; by exists s|reflexivity].
    + split; [discriminate|]. by intros [? [=]].
    + split; [discriminate|]. by intros [? [=]].
  - unfold inbound_transport. destruct (RemoteAddr w) as [s|s|s]; cbn.
    + split; [discriminate|]. intros H. by destruct (H s).
    + split; [intros _ ? [=]|reflexivity].
    + split; [intros _ ? [=]|reflexivity].
  - intros resp He. rewrite proxy_ordinary by exact Ht. by rewrite He.
  - intros err He. rewrite proxy_ordinary by exact Ht. by rewrite He.
  - rewrite proxy_ordinary by exact Ht.
    by destruct (Exchange net _ req addr).
  - intros routes transferIPs range_map v q0 qs Hq.
    apply route_accepted with (qs := qs); [exact Hq|].
    by apply allowed_ordinary.
Qed.

Lemma ordinary_query_forwarded_witness :
  let w := {| RemoteAddr := TCPAddr "192.0.2.9:40000" |} in
  let req := a_query "www.example.com." in
  isTransfer req = false
  /\ proxy dead_net "8.8.4.4:53" w req
     = [EvExchange "tcp" req "8.8.4.4:53"; EvHandleFailed req].
Proof.
  intros w req. split; [reflexivity|].
  destruct (ordinary_query_forwarded dead_net "8.8.4.4:53" w req eq_refl)
    as (_ & _ & _ & H & _).
  exact (H "i/o timeout" eq_refl).
Defined.

Example proxy_udp_answer :
  proxy sample_net "8.8.4.4:53" {| RemoteAddr := UDPAddr "192.0.2.9:40000" |}
        (a_query "www.example.com.")
  = [EvExchange "udp" (a_query "www.example.com.") "8.8.4.4:53";
     EvWriteMsg {| Id := 12; Questions := Questions (a_query "www.example.com.");
                   Answer := [{| Hdr_Name := "example.com."; Hdr_Rrtype := 1;
                                 Rdata := "192.0.2.7" |}] |}].
Proof. reflexivity. Qed.

(** ** Selection of the upstream *)

(** C4. When a route [(suffix, upstream)] of the table matches the name of
    the first question and no other configured suffix does, the selector
    chooses [upstream], in whatever order the table is iterated and whatever
    the random source draws; [route] then hands the query to [proxy] with
    that address. *)
Theorem unique_matching_route_selected routes range_map v suffix upstream qname :
  range_map routes ≡ₚ map_to_list routes ->
  routes !! suffix = Some upstream ->
  HasSuffix qname suffix = true ->
  (forall name addr, routes !! name = Some addr -> name <> suffix ->
                     HasSuffix qname name = false) ->
  route_upstream routes range_map v qname = Some upstream
  /\ forall transferIPs net w req q0 qs,
       Questions req = q0 :: qs -> Name q0 = qname ->
       allowed transferIPs w req = true ->
       route routes transferIPs range_map v net w req
       = Some (proxy net upstream w req).
Proof.
  intros Hperm Hin Hs Hothers.
  assert (Hup : route_upstream routes range_map v qname = Some upstream)
    by (by apply route_upstream_unique with (suffix := suffix)).
  split; [exact Hup|].
  intros transferIPs net w req q0 qs Hq Hn Ha.
  unfold route. rewrite Hq, Ha, Hn, Hup. reflexivity.
Qed.

Lemma unique_matching_route_selected_witness :
  let routes : gmap string string :=
    <["example.net." := "10.0.0.2:53"]> {["example.com." := "10.0.0.1:53"]} in
  map_to_list routes ≡ₚ map_to_list routes
  /\ routes !! "example.com." = Some "10.0.0.1:53"
  /\ HasSuffix "subdomain.example.com." "example.com." = true
  /\ (forall name addr, routes !! name = Some addr -> name <> "example.com." ->
                        HasSuffix "subdomain.example.com." name = false)
  /\ route_upstream routes map_to_list 5 "subdomain.example.com." = Some "10.0.0.1:53".
Proof.
  intros routes.
  assert (Hothers : forall name addr, routes !! name = Some addr ->
            name <> "example.com." -> HasSuffix "subdomain.example.com." name = false).
  { intros name addr. subst routes. rewrite lookup_insert. case_decide as E.
    - intros _ _. by subst name.
    - rewrite lookup_singleton. case_decide as E'; [|discriminate].
      intros _ Hne. by destruct Hne. }
  split; [reflexivity|]. split; [reflexivity|]. split; [reflexivity|].
  split; [exact Hothers|].
  apply (unique_matching_route_selected routes map_to_list 5 "example.com."
           "10.0.0.1:53" "subdomain.example.com.");
    [reflexivity|reflexivity|reflexivity|exact Hothers].
Defined.

(** C5. When the name of the first question matches no configured suffix, the
    selector returns a member of the built-in pool of public resolvers; and
    on every table, iteration order, draw and name it returns one address:
    it never panics. *)
Theorem no_route_selects_public_server routes range_map v qname :
  range_map routes ≡ₚ map_to_list routes ->
  (forall name addr, routes !! name = Some addr -> HasSuffix qname name = false) ->
  (exists s, route_upstream routes range_map v qname = Some s /\ s ∈ publicServer)
  /\ (forall routes' range_map' v' qname',
        exists s, route_upstream routes' range_map' v' qname' = Some s).
Proof.
  intros Hperm Hno. split.
  - rewrite route_upstream_no_match by assumption. apply randomPublicServer_total.
  - intros. apply route_upstream_total.
Qed.

Lemma no_route_selects_public_server_witness :
  let routes : gmap string string := {["example.com." := "10.0.0.1:53"]} in
  map_to_list routes ≡ₚ map_to_list routes
  /\ (forall name addr, routes !! name = Some addr -> HasSuffix "other.net." name = false)
  /\ exists s, route_upstream routes map_to_list 41 "other.net." = Some s
               /\ s ∈ publicServer.
Proof.
  intros routes.
  assert (Hno : forall name addr, routes !! name = Some addr ->
                                  HasSuffix "other.net." name = false).
  { intros name addr. subst routes. rewrite lookup_singleton.
    case_decide as E; [|discriminate]. intros _. by subst name. }
  split; [reflexivity|]. split; [exact Hno|].
  apply (no_route_selects_public_server routes map_to_list 41 "other.net.");
    [reflexivity|exact Hno].
Defined.

Example route_upstream_draw_41 :
  route_upstream {["example.com." := "10.0.0.1:53"]} map_to_list 41 "other.net."
  = Some "9.9.9.9:53".
Proof. vm_compute. reflexivity. Qed.

(** ** An empty [-allow-transfer] *)

(** On an error [net.SplitHostPort] returns empty strings for the host and
    the port. *)
Lemma SplitHostPort_error (hostport : string) :
  (SplitHostPort hostport).2 <> None ->
  (SplitHostPort hostport).1.1 = "" /\ (SplitHostPort hostport).1.2 = "".
Proof.
  unfold SplitHostPort, SplitHostPort_tail, addrErr.
  repeat case_match; cbn; intros Herr; try (split; reflexivity); by destruct Herr.
Qed.

Lemma validHostPort_true (s : string) :
  validHostPort s = true ->
  (SplitHostPort s).2 = None /\ (SplitHostPort s).1.1 <> "" /\ (SplitHostPort s).1.2 <> "".
Proof.
  unfold validHostPort. destruct (SplitHostPort s) as [[host port] err]. cbn.
  destruct err; cbn; [discriminate|].
  destruct (String.eqb host "") eqn:Eh; cbn; [discriminate|].
  destruct (String.eqb port "") eqn:Ep; cbn; [discriminate|].
  intros _. apply String.eqb_neq in Eh, Ep. done.
Qed.

(** C9. With an empty [-allow-transfer] the allow-list is the one-element
    list holding the empty string, not the empty list.  A transfer query is
    then authorised if and only if the host that [net.SplitHostPort] returns
    for the client's remote address is empty, which is what it returns when
    the split fails; and every transfer from a client whose remote address
    is a well-formed host:port (a host and a port, both present) is denied. *)
Theorem empty_allow_transfer w req :
  isTransfer req = true ->
  main_transferIPs "" = [""]
  /\ main_transferIPs "" <> []
  /\ (allowed (main_transferIPs "") w req = true <-> remote_host w = "")
  /\ ((SplitHostPort (Addr_String (RemoteAddr w))).2 <> None ->
      allowed (main_transferIPs "") w req = true)
  /\ (validHostPort (Addr_String (RemoteAddr w)) = true ->
      allowed (main_transferIPs "") w req = false).
Proof.
  intros Ht.
  assert (Hl : main_transferIPs "" = [""]) by reflexivity.
  assert (Hiff : allowed (main_transferIPs "") w req = true <-> remote_host w = "").
  { rewrite allowed_transfer by exact Ht. rewrite Hl.
    rewrite elem_of_cons. split; [intros [H|H]; [exact H|by apply elem_of_nil in H]|by left]. }
  split; [exact Hl|]. split; [by rewrite Hl|]. split; [exact Hiff|]. split.
  - intros He. apply Hiff. by apply SplitHostPort_error.
  - intros Hv. apply validHostPort_true in Hv as (_ & Hh & _).
    apply not_true_is_false. intros Ha. by apply Hiff in Ha.
Qed.

Lemma empty_allow_transfer_witness :
  let w := {| RemoteAddr := TCPAddr "192.0.2.9:40000" |} in
  let req := axfr_query "example.com." in
  isTransfer req = true
  /\ validHostPort (Addr_String (RemoteAddr w)) = true
  /\ allowed (main_transferIPs "") w req = false.
Proof.
  intros w req. split; [reflexivity|]. split; [reflexivity|].
  destruct (empty_allow_transfer w req eq_refl) as (_ & _ & _ & _ & H).
  exact (H eq_refl).
Defined.

(** A remote address that does not split is authorised by the empty
    [-allow-transfer]; so is one that splits into an empty host and a port. *)
Example empty_allow_transfer_unsplit :
  SplitHostPort "@" = ("", "", Some {| Err := missingPort; Addr := "@" |})
  /\ allowed (main_transferIPs "") {| RemoteAddr := OtherAddr "@" |}
             (axfr_query "example.com.") = true.
Proof. split; reflexivity. Qed.

Example empty_allow_transfer_empty_host :
  SplitHostPort ":53" = ("", "53", None)
  /\ validHostPort ":53" = false
  /\ allowed (main_transferIPs "") {| RemoteAddr := TCPAddr ":53" |}
             (axfr_query "example.com.") = true.
Proof. repeat split; reflexivity. Qed.

(** ** Pool entries without a port *)

(** C10. Some entries of the built-in pool, ["209.244.0.3"] among them, fail
    the check [validHostPort] that [main] applies to configured routes (five
    entries do); so there are queries matching no route for which the
    selector returns an address with no port. *)
Theorem public_pool_entry_without_port :
  "209.244.0.3" ∈ publicServer
  /\ validHostPort "209.244.0.3" = false
  /\ List.filter (fun s => negb (validHostPort s)) publicServer
     = ["209.244.0.3"; "209.244.0.4"; "64.6.64.6"; "64.6.65.6"; "208.67.220.220"]
  /\ SplitHostPort "209.244.0.3"
     = ("", "", Some {| Err := missingPort; Addr := "209.244.0.3" |})
  /\ exists (routes : gmap string string) range_map v qname,
       range_map routes ≡ₚ map_to_list routes
       /\ (forall name addr, routes !! name = Some addr -> HasSuffix qname name = false)
       /\ route_upstream routes range_map v qname = Some "209.244.0.3".
Proof.
  split; [apply list_elem_of_lookup; by exists 3%nat|].
  split; [reflexivity|]. split; [reflexivity|]. split; [reflexivity|].
  exists {["example.com." := "10.0.0.1:53"]}, map_to_list, 3, "other.net.".
  split; [reflexivity|]. split; [|vm_compute; reflexivity].
  intros name addr. rewrite lookup_singleton.
  case_decide as E; [|discriminate]. intros _. by subst name.
Qed.

Example route_without_port :
  route {["example.com." := "10.0.0.1:53"]} [""] map_to_list 3 dead_net
        {| RemoteAddr := UDPAddr "192.0.2.9:40000" |} (a_query "other.net.")
  = Some [EvExchange "udp" (a_query "other.net.") "209.244.0.3";
          EvHandleFailed (a_query "other.net.")].
Proof. vm_compute. reflexivity. Qed.

(** ** Suffix keys and separator alignment *)

(** The route for [example.com.] is selected for [notexample.com.]: the
    match compares trailing bytes and does not look for a label boundary.
    The table is the one [main] builds from [-route example.com=10.0.0.1:53],
    an upstream that is not in the public pool; the selection holds for every
    iteration order and every draw. *)
Lemma notexample_selects_example_route :
  let routes : gmap string string := {["example.com." := "10.0.0.1:53"]} in
  let req := a_query "notexample.com." in
  main_routes "example.com=10.0.0.1:53" = Some routes
  /\ routes !! "example.com." = Some "10.0.0.1:53"
  /\ HasSuffix "notexample.com." "example.com." = true
  /\ ("10.0.0.1:53" ∉ publicServer)
  /\ (forall range_map v,
        range_map routes ≡ₚ map_to_list routes ->
        route_loop (range_map routes) "notexample.com." = Some "10.0.0.1:53"
        /\ route_upstream routes range_map v "notexample.com." = Some "10.0.0.1:53")
  /\ route routes [""] map_to_list 0 dead_net
           {| RemoteAddr := UDPAddr "192.0.2.9:40000" |} req
     = Some [EvExchange "udp" req "10.0.0.1:53"; EvHandleFailed req].
Proof.
  intros routes req.
  split; [vm_compute; reflexivity|]. split; [reflexivity|]. split; [reflexivity|].
  split; [intros Hin%list_elem_of_In; vm_compute in Hin; intuition discriminate|].
  split; [|vm_compute; reflexivity].
  intros range_map v Hperm.
  assert (E : range_map routes = [("example.com.", "10.0.0.1:53")]).
  { apply Permutation_singleton_r. rewrite Hperm. subst routes.
    by rewrite map_to_list_singleton. }
  unfold route_upstream. rewrite E. split; reflexivity.
Qed.

(** C1, as the program has it.  Every key of the routing table that [main]
    builds ends with the label separator.  Matching is a comparison of
    trailing bytes: a route is selected only if its key is a trailing part of
    the queried name, and some route is selected whenever some key is.  The
    match falls on a label boundary when the key itself begins with the
    separator: the key [example.com.] is a suffix of [notexample.com.], the
    key [.example.com.] is not. *)
Theorem route_keys_end_with_separator routeList routes :
  main_routes routeList = Some routes ->
  (forall name addr, routes !! name = Some addr -> HasSuffix name "." = true)
  /\ (forall range_map qname addr,
        range_map routes ≡ₚ map_to_list routes ->
        route_loop (range_map routes) qname = Some addr ->
        exists name p, routes !! name = Some addr /\ qname = p +:+ name)
  /\ (forall range_map name addr p,
        range_map routes ≡ₚ map_to_list routes ->
        routes !! name = Some addr ->
        exists addr', route_loop (range_map routes) (p +:+ name) = Some addr')
  /\ HasSuffix "notexample.com." "example.com." = true
  /\ HasSuffix "notexample.com." ".example.com." = false
  /\ HasSuffix "sub.example.com." ".example.com." = true.
Proof.
  intros Hm. split; [exact (main_routes_keys routeList routes Hm)|].
  split; [|split; [|repeat split; reflexivity]].
  - intros range_map qname addr Hperm Hl.
    apply route_loop_Some in Hl as (name & Hin & Hs).
    apply HasSuffix_spec in Hs as [p ->]. exists name, p.
    split; [|reflexivity]. by apply (elem_of_range routes (range_map routes)).
  - intros range_map name addr p Hperm Hin.
    destruct (route_loop (range_map routes) (p +:+ name)) as [addr'|] eqn:E;
      [by exists addr'|].
    exfalso. rewrite route_loop_None in E.
    assert (Hs : HasSuffix (p +:+ name) name = false).
    { apply (E name addr). by apply (elem_of_range routes (range_map routes)). }
    rewrite HasSuffix_app in Hs. discriminate.
Qed.

Lemma route_keys_end_with_separator_witness :
  let routes : gmap string string :=
    <[".example.net." := "10.0.0.2:53"]> {["example.com." := "10.0.0.1:53"]} in
  main_routes "example.com=10.0.0.1:53,.example.net.=10.0.0.2:53" = Some routes
  /\ forall name addr, routes !! name = Some addr -> HasSuffix name "." = true.
Proof.
  intros routes.
  assert (Hm : main_routes "example.com=10.0.0.1:53,.example.net.=10.0.0.2:53"
               = Some routes) by (vm_compute; reflexivity).
  split; [exact Hm|].
  apply (route_keys_end_with_separator
           "example.com=10.0.0.1:53,.example.net.=10.0.0.2:53" routes Hm).
Defined.

(** * Further properties of the program *)

(** ** Indices and slices *)

Lemma len_nonneg (s : string) : 0 <= len s.
Proof. unfold len. lia. Qed.

Lemma len_cons (a : ascii) (s : string) : len (String a s) = len s + 1.
Proof. unfold len. cbn [String.length]. lia. Qed.

Lemma len_app (p s : string) : len (p +:+ s) = len p + len s.
Proof. unfold len. rewrite length_app. lia. Qed.

Lemma slice_to_app (p s : string) : slice_to (String.length p) (p +:+ s) = p.
Proof.
  induction p as [|a p IH]; [by destruct s|].
  rewrite app_cons. cbn [String.length slice_to]. by rewrite IH.
Qed.

Lemma IndexByteString_range (s : string) (c : ascii) :
  IndexByteString s c = -1 \/ 0 <= IndexByteString s c < len s.
Proof.
  induction s as [|a s IH]; [by left|].
  cbn [IndexByteString]. rewrite len_cons.
  destruct (Ascii.eqb a c); [right; pose proof (len_nonneg s); lia|].
  destruct IH as [->|IH]; [by left|].
  right. destruct (IndexByteString s c <? 0) eqn:E; [apply Z.ltb_lt in E|]; lia.
Qed.

Lemma LastIndexByteString_range (s : string) (c : ascii) :
  LastIndexByteString s c = -1 \/ 0 <= LastIndexByteString s c < len s.
Proof.
  induction s as [|a s IH]; [by left|].
  cbn [LastIndexByteString]. rewrite len_cons.
  destruct IH as [->|IH].
  - cbn. destruct (Ascii.eqb a c); [right; pose proof (len_nonneg s); lia|by left].
  - right. destruct (0 <=? LastIndexByteString s c) eqn:E; [|apply Z.leb_gt in E]; lia.
Qed.

Lemma lacks_cons (c a : ascii) (s : string) :
  lacks c (String a s) <-> a <> c /\ lacks c s.
Proof.
  unfold lacks. cbn [IndexByteString].
  destruct (Ascii.eqb a c) eqn:E.
  - apply Ascii.eqb_eq in E. split; [discriminate|]. by intros [? _].
  - apply Ascii.eqb_neq in E.
    destruct (IndexByteString_range s c) as [->|H]; [done|].
    destruct (IndexByteString s c <? 0) eqn:E'; [apply Z.ltb_lt in E'|]; split; try lia.
    all: intros [_ ?]; lia.
Qed.

Lemma lacks_app (c : ascii) (p s : string) :
  lacks c (p +:+ s) <-> lacks c p /\ lacks c s.
Proof.
  induction p as [|a p IH].
  - change ("" +:+ s) with s. split; [by split|by intros [_ ?]].
  - rewrite app_cons, !lacks_cons, IH. tauto.
Qed.

Lemma lacks_nil (c : ascii) : lacks c "".
Proof. reflexivity. Qed.

(** The first occurrence, when the prefix has none. *)
Lemma IndexByteString_app_cons (c : ascii) (p s : string) :
  lacks c p -> IndexByteString (p +:+ String c s) c = len p.
Proof.
  induction p as [|a p IH]; intros Hp.
  - change ("" +:+ String c s) with (String c s). cbn [IndexByteString].
    by rewrite Ascii.eqb_refl.
  - apply lacks_cons in Hp as [Hne Hp]. rewrite app_cons, len_cons.
    cbn [IndexByteString]. apply Ascii.eqb_neq in Hne. rewrite Hne, (IH Hp).
    pose proof (len_nonneg p).
    destruct (len p <? 0) eqn:E; [apply Z.ltb_lt in E; lia|reflexivity].
Qed.

Lemma LastIndexByteString_lacks (c : ascii) (s : string) :
  lacks c s -> LastIndexByteString s c = -1.
Proof.
  induction s as [|a s IH]; [reflexivity|].
  intros [Hne Hs]%lacks_cons. cbn [LastIndexByteString]. rewrite (IH Hs). cbn.
  apply Ascii.eqb_neq in Hne. by rewrite Hne.
Qed.

(** The last occurrence, when the rest has none. *)
Lemma LastIndexByteString_app_cons (c : ascii) (p s : string) :
  lacks c s -> LastIndexByteString (p +:+ String c s) c = len p.
Proof.
  intros Hs. induction p as [|a p IH].
  - change ("" +:+ String c s) with (String c s). cbn [LastIndexByteString].
    rewrite (LastIndexByteString_lacks c s Hs). cbn. by rewrite Ascii.eqb_refl.
  - rewrite app_cons, len_cons. cbn [LastIndexByteString]. rewrite IH.
    pose proof (len_nonneg p).
    destruct (0 <=? len p) eqn:E; [reflexivity|apply Z.leb_gt in E; lia].
Qed.

(** A string is cut at the first occurrence of [c] into a part without [c],
    [c] itself and the rest. *)
Lemma IndexByteString_cut (c : ascii) (s : string) :
  0 <= IndexByteString s c ->
  let m := Z.to_nat (IndexByteString s c) in
  s = slice_to m s +:+ String c (slice_from (S m) s) /\ lacks c (slice_to m s).
Proof.
  induction s as [|a s IH]; [cbn; lia|].
  cbn [IndexByteString]. destruct (Ascii.eqb a c) eqn:E.
  - apply Ascii.eqb_eq in E as ->. intros _. cbn. by split.
  - destruct (IndexByteString_range s c) as [Hr|Hr].
    + rewrite Hr. cbn. lia.
    + destruct (IndexByteString s c <? 0) eqn:E'; [apply Z.ltb_lt in E'; lia|].
      intros _.
      specialize (IH ltac:(lia)). cbn zeta in IH. destruct IH as [IH1 IH2].
      replace (Z.to_nat (IndexByteString s c + 1))
        with (S (Z.to_nat (IndexByteString s c))) by lia.
      cbn [slice_to]. rewrite app_cons. split.
      * f_equal. exact IH1.
      * apply lacks_cons. split; [by apply Ascii.eqb_neq|exact IH2].
Qed.

(** A string is cut at the last occurrence of [c] into a part, [c] itself
    and a rest without [c]. *)
Lemma LastIndexByteString_cut (c : ascii) (s : string) :
  0 <= LastIndexByteString s c ->
  let m := Z.to_nat (LastIndexByteString s c) in
  s = slice_to m s +:+ String c (slice_from (S m) s) /\ lacks c (slice_from (S m) s).
Proof.
  induction s as [|a s IH]; [cbn; lia|].
  cbn [LastIndexByteString].
  destruct (LastIndexByteString_range s c) as [Hr|Hr].
  - rewrite Hr. cbn. destruct (Ascii.eqb a c) eqn:E; [|lia].
    apply Ascii.eqb_eq in E as ->. intros _. cbn. split; [reflexivity|].
    clear IH. revert Hr. induction s as [|b s IHs]; [reflexivity|].
    cbn [LastIndexByteString].
    destruct (LastIndexByteString_range s c) as [Hs|Hs].
    + rewrite Hs. cbn. destruct (Ascii.eqb b c) eqn:Eb; [discriminate|].
      intros _. apply lacks_cons. split; [by apply Ascii.eqb_neq|by apply IHs].
    + destruct (0 <=? LastIndexByteString s c) eqn:E'; [lia|apply Z.leb_gt in E'; lia].
  - destruct (0 <=? LastIndexByteString s c) eqn:E'; [|apply Z.leb_gt in E'; lia].
    intros _.
    specialize (IH ltac:(lia)). cbn zeta in IH. destruct IH as [IH1 IH2].
    replace (Z.to_nat (LastIndexByteString s c + 1))
      with (S (Z.to_nat (LastIndexByteString s c))) by lia.
    cbn [slice_to]. rewrite app_cons. split; [f_equal; exact IH1|exact IH2].
Qed.

(** ** [net.SplitHostPort] on joined addresses *)

Lemma slice_from_S_cons (n : nat) (a : ascii) (s : string) :
  slice_from (S n) (String a s) = slice_from n s.
Proof. reflexivity. Qed.

Lemma slice_to_S_cons (n : nat) (a : ascii) (s : string) :
  slice_to (S n) (String a s) = String a (slice_to n s).
Proof. reflexivity. Qed.

Lemma to_nat_len (s : string) : Z.to_nat (len s) = String.length s.
Proof. unfold len. lia. Qed.

Lemma head_not_bracket (h rest : string) :
  lacks "[" h ->
  match h +:+ String ":" rest with
  | String "[" _ => False
  | _ => True
  end.
Proof.
  destruct h as [|a h]; [done|].
  intros [Hne _]%lacks_cons. rewrite app_cons.
  destruct a as [[] [] [] [] [] [] [] []]; try exact I. by destruct Hne.
Qed.

(** An address written [host:port], with a host free of colons and brackets
    and a port free of colons and brackets, splits into that host and port. *)
Lemma SplitHostPort_plain (h p : string) :
  lacks ":" h -> lacks "[" h -> lacks "]" h ->
  lacks ":" p -> lacks "[" p -> lacks "]" p ->
  SplitHostPort (h +:+ String ":" p) = (h, p, None).
Proof.
  intros Hc Ho Hcl Pc Po Pcl.
  set (hp := h +:+ String ":" p).
  assert (Hi : LastIndexByteString hp ":" = len h)
    by (by apply LastIndexByteString_app_cons).
  assert (Hopen : lacks "[" hp).
  { apply lacks_app. split; [exact Ho|]. by apply lacks_cons. }
  assert (Hclose : lacks "]" hp).
  { apply lacks_app. split; [exact Hcl|]. by apply lacks_cons. }
  unfold SplitHostPort. rewrite Hi.
  pose proof (len_nonneg h) as Hl.
  replace (len h <? 0) with false by (symmetry; apply Z.ltb_ge; lia).
  assert (Hbody :
    (let host := slice 0 (len h) hp in
     if 0 <=? IndexByteString host ":" then addrErr hp tooManyColons
     else SplitHostPort_tail hp host (len h) 0 0) = (h, p, None)).
  { cbn zeta. unfold slice. rewrite to_nat_len. cbn [Z.to_nat slice_from].
    subst hp. rewrite slice_to_app. rewrite Hc. cbn [Z.leb Z.compare].
    unfold SplitHostPort_tail. cbn [Z.to_nat slice_from].
    rewrite Hopen, Hclose. cbn [Z.leb Z.compare].
    replace (Z.to_nat (len h + 1)) with (String.length (h +:+ ":")).
    - replace (h +:+ String ":" p) with ((h +:+ ":") +:+ p) at 1.
      + by rewrite slice_from_app.
      + clear. induction h as [|a h IH]; [reflexivity|].
        rewrite !app_cons. by rewrite IH.
    - rewrite length_app. unfold len. cbn. lia. }
  pose proof (head_not_bracket h p Ho) as Hb. fold hp in Hb.
  destruct hp as [|a hp']; [exact Hbody|].
  destruct a as [[] [] [] [] [] [] [] []]; first [exact Hbody | by destruct Hb].
Qed.

Example SplitHostPort_plain_ex :
  SplitHostPort "resolver.example:domain" = ("resolver.example", "domain", None).
Proof. reflexivity. Qed.

Lemma app_assoc_s (a b c : string) : (a +:+ b) +:+ c = a +:+ (b +:+ c).
Proof. induction a as [|x a IH]; [reflexivity|]. rewrite !app_cons. by rewrite IH. Qed.

Lemma app_nil_l_s (s : string) : "" +:+ s = s.
Proof. reflexivity. Qed.

(** An address written [[host]:port], with a host free of brackets (colons
    are welcome) and a port free of colons and brackets, splits into that
    host and port. *)
Lemma SplitHostPort_bracketed (h p : string) :
  lacks "[" h -> lacks "]" h ->
  lacks ":" p -> lacks "[" p -> lacks "]" p ->
  SplitHostPort (String "[" (h +:+ String "]" (String ":" p))) = (h, p, None).
Proof.
  intros Ho Hcl Pc Po Pcl.
  set (hp := String "[" (h +:+ String "]" (String ":" p))).
  assert (E1 : hp = (String "[" (h +:+ "]")) +:+ String ":" p).
  { subst hp. rewrite app_cons. f_equal. by rewrite app_assoc_s. }
  assert (E2 : hp = (String "[" h) +:+ String "]" (String ":" p)) by reflexivity.
  assert (Hi : LastIndexByteString hp ":" = len h + 2).
  { rewrite E1, LastIndexByteString_app_cons by exact Pc.
    rewrite len_cons, len_app. unfold len. cbn. lia. }
  assert (He : IndexByteString hp "]" = len h + 1).
  { rewrite E2, IndexByteString_app_cons; [by rewrite len_cons|].
    apply lacks_cons. by split. }
  assert (Hlen : len hp = len h + 3 + len p).
  { rewrite E1, len_app, !len_cons, len_app. unfold len. cbn. lia. }
  pose proof (len_nonneg h) as Hl. pose proof (len_nonneg p) as Hlp.
  assert (Hhost : slice 1 (len h + 1) hp = h).
  { unfold slice. replace (Z.to_nat (len h + 1)) with (String.length (String "[" h))
      by (unfold len; cbn; lia).
    rewrite E2, slice_to_app. reflexivity. }
  assert (Hj : lacks "[" (slice_from (Z.to_nat 1) hp)).
  { subst hp. cbn [Z.to_nat Pos.to_nat Pos.iter_op Init.Nat.add slice_from].
    apply lacks_app. split; [exact Ho|]. apply lacks_cons. split; [done|].
    by apply lacks_cons. }
  assert (Hk : lacks "]" (slice_from (Z.to_nat (len h + 1 + 1)) hp)).
  { replace (Z.to_nat (len h + 1 + 1)) with (String.length (String "[" (h +:+ "]")))
      by (cbn [String.length]; rewrite length_app; unfold len; cbn; lia).
    rewrite E1, slice_from_app. by apply lacks_cons. }
  assert (Hport : slice_from (Z.to_nat (len h + 2 + 1)) hp = p).
  { replace (Z.to_nat (len h + 2 + 1))
      with (String.length ((String "[" (h +:+ "]")) +:+ ":"))
      by (rewrite length_app; cbn [String.length]; rewrite length_app;
          unfold len; cbn; lia).
    rewrite E1.
    replace ((String "[" (h +:+ "]")) +:+ String ":" p)
      with (((String "[" (h +:+ "]")) +:+ ":") +:+ p)
      by (by rewrite app_assoc_s).
    apply slice_from_app. }
  unfold SplitHostPort. fold hp. rewrite Hi, He, Hlen.
  replace (len h + 2 <? 0) with false by (symmetry; apply Z.ltb_ge; lia).
  replace (len h + 1 <? 0) with false by (symmetry; apply Z.ltb_ge; lia).
  replace (len h + 1 + 1 =? len h + 3 + len p) with false
    by (symmetry; apply Z.eqb_neq; lia).
  replace (len h + 1 + 1 =? len h + 2) with true by (symmetry; apply Z.eqb_eq; lia).
  unfold SplitHostPort_tail. rewrite Hhost, Hj, Hk, Hport. reflexivity.
Qed.

(** ** What [net.SplitHostPort] accepts *)

Lemma length_slice_to (n : nat) (s : string) :
  (n <= String.length s)%nat -> String.length (slice_to n s) = n.
Proof.
  revert s. induction n as [|n IH]; intros [|a s] Hn; cbn in *; try lia.
  rewrite IH; lia.
Qed.

Lemma slice_from_unique (n : nat) (s rest : string) :
  s = slice_to n s +:+ rest -> slice_from n s = rest.
Proof.
  intros E. pose proof (slice_to_from n s) as E'.
  rewrite E in E' at 3. by apply (inj (String.app (slice_to n s))) in E'.
Qed.

(** The two branches of [net.SplitHostPort]. *)
Lemma SplitHostPort_branches (s : string) :
  0 <= LastIndexByteString s ":" ->
  (exists t, s = String "[" t
             /\ SplitHostPort s
                = let i := LastIndexByteString s ":" in
                  let e := IndexByteString s "]" in
                  if e <? 0 then addrErr s "missing ']' in address"
                  else if e + 1 =? len s then addrErr s missingPort
                  else if e + 1 =? i then
                    SplitHostPort_tail s (slice 1 e s) i 1 (e + 1)
                  else if String.eqb (slice (e + 1) (e + 2) s) ":"
                  then addrErr s tooManyColons
                  else addrErr s missingPort)
  \/ (lacks "[" (slice_to 1 s)
      /\ SplitHostPort s
         = let i := LastIndexByteString s ":" in
           let host := slice 0 i s in
           if 0 <=? IndexByteString host ":" then addrErr s tooManyColons
           else SplitHostPort_tail s host i 0 0).
Proof.
  intros Hi. unfold SplitHostPort.
  replace (LastIndexByteString s ":" <? 0) with false by (symmetry; apply Z.ltb_ge; lia).
  destruct s as [|a t]; [right; by split|].
  destruct a as [[] [] [] [] [] [] [] []];
    first [ left; exists t; split; reflexivity | right; split; reflexivity ].
Qed.

Lemma SplitHostPort_tail_ok hostport host i j k h p :
  SplitHostPort_tail hostport host i j k = (h, p, None) ->
  lacks "[" (slice_from (Z.to_nat j) hostport)
  /\ lacks "]" (slice_from (Z.to_nat k) hostport)
  /\ h = host /\ p = slice_from (Z.to_nat (i + 1)) hostport.
Proof.
  unfold SplitHostPort_tail, addrErr, lacks.
  destruct (0 <=? IndexByteString (slice_from (Z.to_nat j) hostport) "[") eqn:E1;
    [discriminate|].
  destruct (0 <=? IndexByteString (slice_from (Z.to_nat k) hostport) "]") eqn:E2;
    [discriminate|].
  intros [= <- <-]. apply Z.leb_gt in E1, E2.
  destruct (IndexByteString_range (slice_from (Z.to_nat j) hostport) "[") as [H1|H1];
    [|lia].
  destruct (IndexByteString_range (slice_from (Z.to_nat k) hostport) "]") as [H2|H2];
    [|lia].
  done.
Qed.

(** When [net.SplitHostPort] succeeds the address is [host:port] or
    [[host]:port] for the host and the port it returns. *)
Lemma SplitHostPort_sound (s h p : string) :
  SplitHostPort s = (h, p, None) ->
  lacks ":" p /\ lacks "[" p /\ lacks "]" p /\ lacks "[" h /\ lacks "]" h
  /\ ((s = h +:+ String ":" p /\ lacks ":" h)
      \/ s = String "[" (h +:+ String "]" (String ":" p))).
Proof.
  intros H.
  destruct (LastIndexByteString_range s ":") as [Hi|Hi].
  { unfold SplitHostPort in H. rewrite Hi in H. discriminate. }
  destruct (LastIndexByteString_cut ":" s ltac:(lia)) as [Hcut Hrest].
  set (i := LastIndexByteString s ":") in *.
  destruct (SplitHostPort_branches s ltac:(fold i; lia)) as [(t & Es & E)|[Hhead E]];
    rewrite E in H; clear E; cbn zeta in H; fold i in H.
  - (* [host]:port *)
    destruct (IndexByteString_range s "]") as [He|He];
      [rewrite He in H; discriminate|].
    destruct (IndexByteString_cut "]" s ltac:(lia)) as [Hcut' Hpre].
    set (e := IndexByteString s "]") in *.
    replace (e <? 0) with false in H by (symmetry; apply Z.ltb_ge; lia).
    destruct (e + 1 =? len s); [discriminate|].
    destruct (e + 1 =? i) eqn:Eei;
      [|destruct (String.eqb _ ":"); discriminate].
    apply Z.eqb_eq in Eei.
    apply SplitHostPort_tail_ok in H as (Hj & Hk & -> & ->).
    assert (He1 : exists e', Z.to_nat e = S e').
    { destruct (Z.to_nat e) as [|e'] eqn:Ee; [|by exists e'].
      exfalso. rewrite Es in Hcut' at 1. revert Hcut'.
      change (slice_to 0 s +:+ String "]" (slice_from 1 s))
        with (String "]" (slice_from 1 s)).
      discriminate. }
    destruct He1 as [e' Ee].
    replace (Z.to_nat (i + 1)) with (S (Z.to_nat i)) in * by lia.
    replace (Z.to_nat (e + 1)) with (Z.to_nat i) in Hk by lia.
    assert (Hsf : slice_from (Z.to_nat i) s = String ":" (slice_from (S (Z.to_nat i)) s))
      by (by apply slice_from_unique).
    assert (Hhost : slice 1 e s = slice_to e' t).
    { unfold slice. rewrite Ee, Es. reflexivity. }
    rewrite Hhost.
    assert (Hs : s = String "[" (slice_to e' t +:+ String "]"
                                   (String ":" (slice_from (S (Z.to_nat i)) s)))).
    { rewrite Hcut' at 1. replace (S (Z.to_nat e)) with (Z.to_nat i) by lia.
      rewrite Hsf, Ee. rewrite Es at 1. reflexivity. }
    rewrite Ee in Hpre. rewrite Es in Hpre at 1.
    cbn [slice_to] in Hpre. apply lacks_cons in Hpre as [_ Hpre].
    rewrite Hsf in Hk. apply lacks_cons in Hk as [_ Hk].
    change (Z.to_nat 1) with 1%nat in Hj. rewrite Hs in Hj at 1.
    cbn [slice_from] in Hj.
    apply lacks_app in Hj as [Hj1 Hj2].
    apply lacks_cons in Hj2 as [_ Hj2]. apply lacks_cons in Hj2 as [_ Hj2].
    repeat split; try assumption. by right.
  - (* host:port *)
    destruct (IndexByteString_range (slice 0 i s) ":") as [Hh|Hh].
    + rewrite Hh in H. cbn [Z.leb Z.compare] in H.
      apply SplitHostPort_tail_ok in H as (Hj & Hk & -> & ->).
      change (Z.to_nat 0) with 0%nat in Hj, Hk. cbn [slice_from] in Hj, Hk.
      replace (Z.to_nat (i + 1)) with (S (Z.to_nat i)) in * by lia.
      unfold slice. cbn [Z.to_nat slice_from].
      rewrite Hcut in Hj, Hk.
      apply lacks_app in Hj as [Hj1 Hj2]. apply lacks_cons in Hj2 as [_ Hj2].
      apply lacks_app in Hk as [Hk1 Hk2]. apply lacks_cons in Hk2 as [_ Hk2].
      repeat split; try assumption. left. split; [exact Hcut|exact Hh].
    + replace (0 <=? _) with true in H by (symmetry; apply Z.leb_le; lia).
      discriminate.
Qed.

(** ** The host of the client's address *)

(** [net.SplitHostPort] succeeds exactly on the addresses that read
    [host:port] or [[host]:port], and returns that host and that port. *)
Lemma SplitHostPort_host_port (a h p : string) :
  SplitHostPort a = (h, p, None) <-> host_port a h p.
Proof.
  unfold host_port. split.
  - intros H. apply SplitHostPort_sound in H. tauto.
  - intros (Ho & Hcl & Pc & Po & Pcl & [[-> Hc]| ->]).
    + by apply SplitHostPort_plain.
    + by apply SplitHostPort_bracketed.
Qed.

(** The host [allowed] compares with the allow-list: the host of an
    address that reads [host:port] or [[host]:port], the empty string for
    any other address. *)
Lemma remote_host_spec (w : ResponseWriter) :
  (forall h p, host_port (Addr_String (RemoteAddr w)) h p -> remote_host w = h)
  /\ ((forall h p, ~ host_port (Addr_String (RemoteAddr w)) h p) -> remote_host w = "").
Proof.
  unfold remote_host. split.
  - intros h p H. apply SplitHostPort_host_port in H. by rewrite H.
  - intros Hno.
    destruct (SplitHostPort (Addr_String (RemoteAddr w))) as [[h p] [e|]] eqn:E.
    + pose proof (SplitHostPort_error (Addr_String (RemoteAddr w))) as He.
      rewrite E in He. cbn in He. by apply He.
    + exfalso. apply (Hno h p). by apply SplitHostPort_host_port.
Qed.

(** C3. For a transfer query, [allowed] returns true if and only if the host
    part of the client's remote address, the port stripped, is as a string
    one of the entries of the allow-list: for an address that reads
    [host:port] or [[host]:port] the host part is [host], without the port
    and the brackets; for any other address it is the empty string.  It is
    what [net.SplitHostPort] returns for the host.  When [allowed] returns
    false the handler answers with the standard failure response and does
    nothing else, so no upstream is contacted. *)
Theorem transfer_allowed_iff_listed transferIPs w req :
  isTransfer req = true ->
  (forall h p, host_port (Addr_String (RemoteAddr w)) h p ->
     (allowed transferIPs w req = true <-> h ∈ transferIPs))
  /\ ((forall h p, ~ host_port (Addr_String (RemoteAddr w)) h p) ->
      (allowed transferIPs w req = true <-> "" ∈ transferIPs))
  /\ (allowed transferIPs w req = true <-> remote_host w ∈ transferIPs)
  /\ (allowed transferIPs w req = false ->
      forall routes range_map v net,
      exists tr, route routes transferIPs range_map v net w req = Some tr
                 /\ tr = [EvHandleFailed req]
                 /\ existsb contacts_upstream tr = false).
Proof.
  intros Ht. destruct (remote_host_spec w) as [Hform Hother].
  pose proof (allowed_transfer transferIPs w req Ht) as Hiff.
  split; [|split; [|split]].
  - intros h p Hhp. by rewrite Hiff, (Hform h p Hhp).
  - intros Hno. by rewrite Hiff, (Hother Hno).
  - exact Hiff.
  - intros Ha routes range_map v net. exists [EvHandleFailed req].
    split; [apply route_refused; auto|]. split; reflexivity.
Qed.

Lemma transfer_allowed_iff_listed_witness :
  let listed := {| RemoteAddr := TCPAddr "1.2.3.4:4000" |} in
  let other := {| RemoteAddr := TCPAddr "5.6.7.8:4000" |} in
  let req := axfr_query "example.com." in
  isTransfer req = true
  /\ host_port "1.2.3.4:4000" "1.2.3.4" "4000"
  /\ allowed ["1.2.3.4"] listed req = true
  /\ allowed ["1.2.3.4"] other req = false
  /\ route {["example.com." := "8.8.4.4:53"]} ["1.2.3.4"] map_to_list 0 sample_net other req
     = Some [EvHandleFailed req].
Proof.
  intros listed other req.
  assert (Hhp : host_port "1.2.3.4:4000" "1.2.3.4" "4000").
  { unfold host_port. repeat (split; [reflexivity|]). left. split; reflexivity. }
  split; [reflexivity|]. split; [exact Hhp|]. split; [|split; [reflexivity|]].
  - destruct (transfer_allowed_iff_listed ["1.2.3.4"] listed req eq_refl) as [H _].
    apply (H "1.2.3.4" "4000" Hhp). apply list_elem_of_here.
  - destruct (transfer_allowed_iff_listed ["1.2.3.4"] other req eq_refl)
      as (_ & _ & _ & H).
    destruct (H eq_refl {["example.com." := "8.8.4.4:53"]} map_to_list 0 sample_net)
      as (tr & Hr & -> & _).
    exact Hr.
Defined.

(** X1. [validHostPort] accepts exactly the strings [host:port] and
    [[host]:port] with a non-empty host and a non-empty port, where the port
    has no colon and no bracket and the host has no bracket (and no colon
    when it is not bracketed).  Nothing else is asked of them: the port need
    not be a number, the host need not be an IP address. *)
Theorem validHostPort_iff (s : string) :
  validHostPort s = true
  <-> exists h p,
        h <> "" /\ p <> ""
        /\ lacks ":" p /\ lacks "[" p /\ lacks "]" p /\ lacks "[" h /\ lacks "]" h
        /\ ((s = h +:+ String ":" p /\ lacks ":" h)
            \/ s = String "[" (h +:+ String "]" (String ":" p))).
Proof.
  split.
  - intros Hv. apply validHostPort_true in Hv as (He & Hh & Hp).
    destruct (SplitHostPort s) as [[h p] err] eqn:E. cbn in He, Hh, Hp. subst err.
    exists h, p. apply SplitHostPort_sound in E. tauto.
  - intros (h & p & Hh & Hp & Pc & Po & Pcl & Ho & Hcl & [[-> Hc]| ->]);
      unfold validHostPort.
    + rewrite SplitHostPort_plain by assumption.
      apply String.eqb_neq in Hh, Hp. by rewrite Hh, Hp.
    + rewrite SplitHostPort_bracketed by assumption.
      apply String.eqb_neq in Hh, Hp. by rewrite Hh, Hp.
Qed.

Example validHostPort_named : validHostPort "ns1.example.org:domain" = true.
Proof. reflexivity. Qed.

Example validHostPort_v6 : validHostPort "[2001:db8::53]:53" = true.
Proof. reflexivity. Qed.

Example validHostPort_v6_bare : validHostPort "2001:db8::53" = false.
Proof. reflexivity. Qed.

(** X2. For a transfer query from a client whose remote address reads
    [host:port], or [[host]:port] as IPv6 addresses do, the authoriser decides
    on [host] alone: the query is authorised if and only if [host], without
    brackets and without the port, is an entry of the allow-list. *)
Theorem transfer_allowed_by_host transferIPs w req h p :
  isTransfer req = true ->
  lacks "[" h -> lacks "]" h ->
  lacks ":" p -> lacks "[" p -> lacks "]" p ->
  (Addr_String (RemoteAddr w) = h +:+ String ":" p /\ lacks ":" h)
  \/ Addr_String (RemoteAddr w) = String "[" (h +:+ String "]" (String ":" p)) ->
  allowed transferIPs w req = true <-> h ∈ transferIPs.
Proof.
  intros Ht Ho Hcl Pc Po Pcl Ha.
  rewrite allowed_transfer by exact Ht.
  replace (remote_host w) with h; [reflexivity|].
  unfold remote_host. destruct Ha as [[-> Hc]| ->].
  - by rewrite SplitHostPort_plain.
  - by rewrite SplitHostPort_bracketed.
Qed.

Lemma transfer_allowed_by_host_witness :
  let w := {| RemoteAddr := TCPAddr "[2001:db8::7]:40000" |} in
  let req := axfr_query "example.com." in
  isTransfer req = true
  /\ lacks "[" "2001:db8::7" /\ lacks "]" "2001:db8::7"
  /\ lacks ":" "40000" /\ lacks "[" "40000" /\ lacks "]" "40000"
  /\ Addr_String (RemoteAddr w) = String "[" ("2001:db8::7" +:+ String "]" (String ":" "40000"))
  /\ (allowed ["1.2.3.4"; "2001:db8::7"] w req = true
      <-> "2001:db8::7" ∈ ["1.2.3.4"; "2001:db8::7"]).
Proof.
  intros w req. repeat (split; [reflexivity|]).
  apply (transfer_allowed_by_host ["1.2.3.4"; "2001:db8::7"] w req "2001:db8::7" "40000");
    try reflexivity.
  right. reflexivity.
Defined.

(** ** Reading one [-route] entry *)

Lemma slice_from_app_cons (p s : string) (c : ascii) :
  slice_from (Z.to_nat (len p + 1)) (p +:+ String c s) = s.
Proof.
  replace (Z.to_nat (len p + 1)) with (String.length (p +:+ String c ""))
    by (rewrite length_app; unfold len; cbn; lia).
  replace (p +:+ String c s) with ((p +:+ String c "") +:+ s)
    by (by rewrite app_assoc_s).
  apply slice_from_app.
Qed.

Lemma SplitN2_lacks (sep : ascii) (s : string) :
  lacks sep s -> SplitN s sep 2 = [s].
Proof.
  intros Hs. unfold SplitN, genSplit. cbn [Z.eqb Z.ltb Z.compare].
  destruct (len s + 1 <? 2) eqn:E.
  - apply Z.ltb_lt in E. pose proof (len_nonneg s).
    replace (Z.to_nat (len s + 1 - 1)) with 0%nat by lia. reflexivity.
  - change (Z.to_nat (2 - 1)) with 1%nat. cbn [genSplit_loop]. by rewrite Hs.
Qed.

Lemma SplitN2_cut (sep : ascii) (s0 s1 : string) :
  lacks sep s0 -> SplitN (s0 +:+ String sep s1) sep 2 = [s0; s1].
Proof.
  intros Hs. unfold SplitN, genSplit. cbn [Z.eqb Z.ltb Z.compare].
  pose proof (len_nonneg s0) as H0. pose proof (len_nonneg s1) as H1.
  replace (len (s0 +:+ String sep s1) + 1 <? 2) with false
    by (symmetry; apply Z.ltb_ge; rewrite len_app, len_cons; lia).
  change (Z.to_nat (2 - 1)) with 1%nat. cbn [genSplit_loop].
  rewrite IndexByteString_app_cons by exact Hs.
  replace (len s0 <? 0) with false by (symmetry; apply Z.ltb_ge; lia).
  unfold slice. rewrite to_nat_len, slice_to_app, slice_from_app_cons. reflexivity.
Qed.

(** [strings.SplitN(s, sep, 2)] cuts [s] at its first separator, if any. *)
Lemma SplitN2_cases (sep : ascii) (s : string) :
  (lacks sep s /\ SplitN s sep 2 = [s])
  \/ exists s0 s1, s = s0 +:+ String sep s1 /\ lacks sep s0
                   /\ SplitN s sep 2 = [s0; s1].
Proof.
  destruct (IndexByteString_range s sep) as [H|H].
  - left. split; [exact H|by apply SplitN2_lacks].
  - right. destruct (IndexByteString_cut sep s ltac:(lia)) as [Hcut Hpre].
    eexists _, _. split; [exact Hcut|]. split; [exact Hpre|].
    rewrite Hcut at 1. by apply SplitN2_cut.
Qed.

(** The entries [main] accepts, and what it stores for them. *)
Lemma main_route_Some routes s routes' :
  main_route routes s = Some routes'
  <-> exists s0 s1,
        s = s0 +:+ String "=" s1 /\ lacks "=" s0
        /\ validHostPort s1 = true
        /\ routes' = <[route_key s0 := s1]> routes.
Proof.
  unfold main_route, route_key. split.
  - intros H. destruct (SplitN2_cases "=" s) as [[_ E]|(s0 & s1 & Es & H0 & E)];
      rewrite E in H; [discriminate|].
    destruct (validHostPort s1) eqn:Hv; [|discriminate].
    cbn [negb] in H. injection H as <-. by exists s0, s1.
  - intros (s0 & s1 & -> & H0 & Hv & ->).
    rewrite SplitN2_cut by exact H0. by rewrite Hv.
Qed.

Example main_route_v6 :
  main_route ∅ "example.com=[2001:db8::53]:53"
  = Some {["example.com." := "[2001:db8::53]:53"]}.
Proof. vm_compute. reflexivity. Qed.

(** ** [strings.Split] *)

Lemma CountByte_nonneg (s : string) (c : ascii) : 0 <= CountByte s c.
Proof.
  induction s as [|a s IH]; cbn [CountByte]; [lia|].
  destruct (Ascii.eqb a c); lia.
Qed.

Lemma CountByte_le_len (s : string) (c : ascii) : CountByte s c <= len s.
Proof.
  induction s as [|a s IH]; cbn [CountByte]; [unfold len; cbn; lia|].
  rewrite len_cons. destruct (Ascii.eqb a c); lia.
Qed.

(** The index loop of [strings.genSplit], run for as many cuts as there are
    separators, cuts the string at every separator. *)
Lemma genSplit_loop_refines (sep : ascii) (s : string) :
  genSplit_loop (Z.to_nat (CountByte s sep)) s sep = split_at_each sep s.
Proof.
  induction s as [|a s IH]; [reflexivity|].
  cbn [CountByte split_at_each]. pose proof (CountByte_nonneg s sep) as Hc.
  destruct (Ascii.eqb a sep) eqn:E.
  - replace (Z.to_nat (1 + CountByte s sep)) with (S (Z.to_nat (CountByte s sep))) by lia.
    cbn [genSplit_loop IndexByteString]. rewrite E. cbn [Z.ltb Z.compare].
    rewrite <- IH. reflexivity.
  - rewrite Z.add_0_l. rewrite <- IH.
    destruct (Z.to_nat (CountByte s sep)) as [|n]; [reflexivity|].
    cbn [genSplit_loop IndexByteString]. rewrite E.
    destruct (IndexByteString_range s sep) as [Hi|Hi].
    + rewrite Hi. reflexivity.
    + replace (IndexByteString s sep <? 0) with false by (symmetry; apply Z.ltb_ge; lia).
      replace (IndexByteString s sep + 1 <? 0) with false
        by (symmetry; apply Z.ltb_ge; lia).
      unfold slice.
      replace (Z.to_nat (IndexByteString s sep + 1))
        with (S (Z.to_nat (IndexByteString s sep))) by lia.
      replace (Z.to_nat (IndexByteString s sep + 1 + 1))
        with (S (S (Z.to_nat (IndexByteString s sep)))) by lia.
      reflexivity.
Qed.

Lemma Split_refines (sep : ascii) (s : string) : Split s sep = split_at_each sep s.
Proof.
  unfold Split, genSplit. cbn [Z.eqb Z.ltb Z.compare].
  pose proof (CountByte_le_len s sep).
  replace (len s + 1 <? CountByte s sep + 1) with false
    by (symmetry; apply Z.ltb_ge; lia).
  replace (CountByte s sep + 1 - 1) with (CountByte s sep) by lia.
  apply genSplit_loop_refines.
Qed.

Lemma split_at_each_cons (sep : ascii) (s : string) :
  exists h t, split_at_each sep s = h :: t.
Proof.
  induction s as [|a s (h & t & IH)]; [by exists "", []|].
  cbn [split_at_each]. rewrite IH. destruct (Ascii.eqb a sep); eauto.
Qed.

Lemma split_at_each_lacks (sep : ascii) (s : string) :
  lacks sep s -> split_at_each sep s = [s].
Proof.
  induction s as [|a s IH]; [reflexivity|].
  intros [Hne Hs]%lacks_cons. cbn [split_at_each].
  apply Ascii.eqb_neq in Hne. by rewrite Hne, (IH Hs).
Qed.

Lemma split_at_each_app (sep : ascii) (a b : string) :
  split_at_each sep (a +:+ String sep b)
  = match split_at_each sep a with
    | [] => []
    | _ => split_at_each sep a ++ split_at_each sep b
    end.
Proof.
  induction a as [|x a IH].
  - rewrite app_nil_l_s. cbn [split_at_each]. by rewrite Ascii.eqb_refl.
  - rewrite app_cons. cbn [split_at_each]. rewrite IH.
    destruct (split_at_each_cons sep a) as (h & t & ->).
    destruct (Ascii.eqb x sep); reflexivity.
Qed.

Lemma join_with_cons (sep : ascii) (s h : string) (t : list string) :
  join_with sep (s :: h :: t) = s +:+ String sep (join_with sep (h :: t)).
Proof. reflexivity. Qed.

Lemma split_at_each_spec (sep : ascii) (s : string) :
  join_with sep (split_at_each sep s) = s
  /\ Forall (lacks sep) (split_at_each sep s)
  /\ Z.of_nat (length (split_at_each sep s)) = CountByte s sep + 1.
Proof.
  induction s as [|a s (IHj & IHf & IHl)].
  - split; [reflexivity|]. split; [|reflexivity]. repeat constructor.
  - cbn [split_at_each CountByte].
    destruct (split_at_each_cons sep s) as (h & t & E). rewrite E in *.
    destruct (Ascii.eqb a sep) eqn:Ea.
    + apply Ascii.eqb_eq in Ea as ->. split; [|split].
      * rewrite join_with_cons, app_nil_l_s. by rewrite IHj.
      * constructor; [apply lacks_nil|exact IHf].
      * cbn [length] in *. lia.
    + apply Ascii.eqb_neq in Ea. apply Forall_cons in IHf as [Hh Ht].
      split; [|split].
      * destruct t as [|h' t]; [cbn in *; by rewrite IHj|].
        rewrite join_with_cons in *. rewrite app_cons. by rewrite IHj.
      * constructor; [by apply lacks_cons|exact Ht].
      * cbn [length] in *. lia.
Qed.

(** X4. The allow-list is the value of [-allow-transfer] cut at its commas
    and nothing more: its entries have no comma, with commas between them
    they give the flag back (nothing is trimmed, no empty entry is dropped),
    there is one more entry than there are commas, and so the list is never
    empty. *)
Theorem allow_list_is_flag_cut_at_commas (allowTransfer : string) :
  join_with "," (main_transferIPs allowTransfer) = allowTransfer
  /\ Forall (lacks ",") (main_transferIPs allowTransfer)
  /\ Z.of_nat (length (main_transferIPs allowTransfer)) = CountByte allowTransfer "," + 1
  /\ main_transferIPs allowTransfer <> [].
Proof.
  unfold main_transferIPs. rewrite Split_refines.
  destruct (split_at_each_spec "," allowTransfer) as (Hj & Hf & Hl).
  repeat split; try assumption.
  intros E. rewrite E in Hl. pose proof (CountByte_nonneg allowTransfer ","). cbn in Hl. lia.
Qed.

Example allow_list_keeps_spaces :
  main_transferIPs "1.2.3.4, ::1" = ["1.2.3.4"; " ::1"]
  /\ allowed (main_transferIPs "1.2.3.4, ::1") {| RemoteAddr := TCPAddr "[::1]:4000" |}
             (axfr_query "example.com.") = false.
Proof. split; reflexivity. Qed.

(** ** The loop of [main] over the [-route] entries *)

Lemma main_route_None routes s :
  main_route routes s = None <-> ~ well_formed_entry s.
Proof.
  split.
  - intros H (s0 & s1 & Es & H0 & Hv).
    assert (Hs : main_route routes s = Some (<[route_key s0 := s1]> routes)).
    { apply main_route_Some. by exists s0, s1. }
    congruence.
  - intros Hn. destruct (main_route routes s) as [r|] eqn:E; [|reflexivity].
    exfalso. apply Hn. apply main_route_Some in E as (s0 & s1 & ? & ? & ? & _).
    by exists s0, s1.
Qed.

(** X3. [main] accepts an entry of [-route] exactly when it reads
    [domain=address] with no ['='] in the domain (the entry is cut at its
    first ['=']) and an address that passes [validHostPort]; it then stores
    the address under the domain, completed with a trailing dot if it has
    none, replacing whatever was stored under that key.  Any other entry is
    fatal, whatever the table holds. *)
Theorem main_route_iff routes s :
  (forall routes',
     main_route routes s = Some routes'
     <-> exists s0 s1,
           s = s0 +:+ String "=" s1 /\ lacks "=" s0
           /\ validHostPort s1 = true
           /\ routes' = <[route_key s0 := s1]> routes)
  /\ (main_route routes s = None <-> ~ well_formed_entry s).
Proof.
  split.
  - intros routes'. apply main_route_Some.
  - apply main_route_None.
Qed.

Lemma main_routes_loop_app routes l1 l2 :
  main_routes_loop routes (l1 ++ l2)
  = match main_routes_loop routes l1 with
    | Some r => main_routes_loop r l2
    | None => None
    end.
Proof.
  revert routes. induction l1 as [|s l1 IH]; intros routes; [reflexivity|].
  cbn [app main_routes_loop]. destruct (main_route routes s); [apply IH|reflexivity].
Qed.

Lemma main_routes_loop_None l : forall routes,
  main_routes_loop routes l = None <-> exists s, s ∈ l /\ ~ well_formed_entry s.
Proof.
  induction l as [|s l IH]; intros routes; cbn [main_routes_loop].
  - split; [discriminate|]. intros (s & Hs & _). by apply elem_of_nil in Hs.
  - destruct (main_route routes s) as [r|] eqn:E.
    + rewrite IH. split.
      * intros (s' & Hin & Hn). exists s'. split; [by apply list_elem_of_further|exact Hn].
      * intros (s' & [->|Hin]%elem_of_cons & Hn); [|by exists s'].
        apply main_route_None with (routes := routes) in Hn. congruence.
    + split; [intros _|reflexivity]. exists s.
      split; [apply list_elem_of_here|]. by apply main_route_None in E.
Qed.

(** Every entry of the table after the loop was there before it or comes
    from an entry of the list. *)
Lemma main_routes_loop_lookup l : forall routes routes' k a,
  main_routes_loop routes l = Some routes' ->
  routes' !! k = Some a ->
  routes !! k = Some a
  \/ (validHostPort a = true
      /\ exists s0, lacks "=" s0 /\ k = route_key s0 /\ (s0 +:+ String "=" a) ∈ l).
Proof.
  induction l as [|s l IH]; intros routes routes' k a H Hk; cbn [main_routes_loop] in H.
  - injection H as <-. by left.
  - destruct (main_route routes s) as [r|] eqn:E; [|discriminate].
    apply main_route_Some in E as (s0 & s1 & -> & H0 & Hv & ->).
    destruct (IH _ _ k a H Hk) as [Hr|(Hva & t0 & Ht0 & Hkey & Hin)].
    + rewrite lookup_insert in Hr. case_decide as Ek; [|by left].
      injection Hr as <-. right. split; [exact Hv|].
      exists s0. split; [exact H0|]. split; [done|apply list_elem_of_here].
    + right. split; [exact Hva|]. exists t0.
      split; [exact Ht0|]. split; [exact Hkey|by apply list_elem_of_further].
Qed.

(** A key that no entry of the list writes keeps its value. *)
Lemma main_routes_loop_other l : forall routes routes' k,
  main_routes_loop routes l = Some routes' ->
  (forall t0 t1, lacks "=" t0 -> (t0 +:+ String "=" t1) ∈ l -> route_key t0 <> k) ->
  routes' !! k = routes !! k.
Proof.
  induction l as [|s l IH]; intros routes routes' k H Hne; cbn [main_routes_loop] in H.
  - by injection H as <-.
  - destruct (main_route routes s) as [r|] eqn:E; [|discriminate].
    apply main_route_Some in E as (s0 & s1 & -> & H0 & Hv & ->).
    rewrite (IH _ _ k H).
    + apply lookup_insert_ne. apply (Hne s0 s1 H0). apply list_elem_of_here.
    + intros t0 t1 Ht Hin. apply (Hne t0 t1 Ht). by apply list_elem_of_further.
Qed.

(** X5. Every route of the table that [main] builds comes from an entry
    [domain=address] of [-route]: its key is the domain, completed with a
    trailing dot, and its upstream address passed [validHostPort], so it has
    a host and a port. *)
Theorem routes_come_from_entries routeList routes name addr :
  main_routes routeList = Some routes ->
  routes !! name = Some addr ->
  validHostPort addr = true
  /\ exists s0, lacks "=" s0 /\ name = route_key s0
                /\ (s0 +:+ String "=" addr) ∈ Split routeList ",".
Proof.
  unfold main_routes. intros H Hk.
  destruct (negb (String.eqb routeList "")).
  - destruct (main_routes_loop_lookup _ _ _ name addr H Hk) as [He|Hr]; [|exact Hr].
    by rewrite lookup_empty in He.
  - injection H as <-. by rewrite lookup_empty in Hk.
Qed.

Lemma routes_come_from_entries_witness :
  let routes : gmap string string :=
    <[".example.net." := "10.0.0.2:53"]> {["example.com." := "10.0.0.1:53"]} in
  main_routes "example.com=10.0.0.1:53,.example.net.=10.0.0.2:53" = Some routes
  /\ routes !! "example.com." = Some "10.0.0.1:53"
  /\ validHostPort "10.0.0.1:53" = true.
Proof.
  intros routes.
  assert (Hm : main_routes "example.com=10.0.0.1:53,.example.net.=10.0.0.2:53"
               = Some routes) by (vm_compute; reflexivity).
  assert (Hk : routes !! "example.com." = Some "10.0.0.1:53") by reflexivity.
  split; [exact Hm|]. split; [exact Hk|].
  apply (routes_come_from_entries _ routes "example.com." "10.0.0.1:53" Hm Hk).
Defined.

Lemma main_routes_None (routeList : string) :
  main_routes routeList = None
  <-> routeList <> ""
      /\ exists s, s ∈ Split routeList "," /\ ~ well_formed_entry s.
Proof.
  unfold main_routes.
  destruct (String.eqb routeList "") eqn:E; cbn [negb].
  - apply String.eqb_eq in E. split; [discriminate|]. by intros [? _].
  - apply String.eqb_neq in E. rewrite main_routes_loop_None. tauto.
Qed.

(** X6. [main] stops with a fatal error exactly when [-route] is not empty
    and one of its comma-separated entries, wherever it stands, is not of the
    form [domain=address] with a valid address; otherwise it builds a table.
    An empty [-route] gives the empty table. *)
Theorem main_routes_fatal_iff (routeList : string) :
  (main_routes routeList = None
   <-> routeList <> ""
       /\ exists s, s ∈ Split routeList "," /\ ~ well_formed_entry s)
  /\ main_routes "" = Some ∅.
Proof.
  split; [|reflexivity]. apply main_routes_None.
Qed.

Lemma not_well_formed_empty : ~ well_formed_entry "".
Proof. intros (s0 & s1 & E & _). by destruct s0. Qed.

(** X7. An empty entry in [-route] is fatal: a trailing comma, a leading
    comma and a doubled comma each make [main] stop, whatever the other
    entries are. *)
Theorem main_routes_empty_entry_fatal (a b : string) :
  main_routes (a +:+ String "," "") = None
  /\ main_routes (String "," b) = None
  /\ main_routes (a +:+ String "," (String "," b)) = None.
Proof.
  assert (Hne : forall x y, x +:+ String "," y <> "") by (intros [|? ?] y; discriminate).
  assert (Hfatal : forall r, r <> "" -> "" ∈ split_at_each "," r -> main_routes r = None).
  { intros r Hr Hin. apply main_routes_None. split; [exact Hr|].
    exists "". rewrite Split_refines. split; [exact Hin|apply not_well_formed_empty]. }
  split; [|split].
  - apply Hfatal; [apply Hne|]. rewrite split_at_each_app.
    destruct (split_at_each_cons "," a) as (h & t & ->).
    apply elem_of_app. right. apply list_elem_of_here.
  - apply Hfatal; [discriminate|]. cbn [split_at_each]. rewrite Ascii.eqb_refl.
    apply list_elem_of_here.
  - apply Hfatal; [apply Hne|]. rewrite split_at_each_app.
    destruct (split_at_each_cons "," a) as (h & t & ->).
    apply elem_of_app. right. cbn [split_at_each]. rewrite Ascii.eqb_refl.
    apply list_elem_of_here.
Qed.

(** X8. When several entries of [-route] give the same key, the last one
    wins: an accepted entry [domain=address] that no later entry overrides
    is in the table, under the domain completed with a trailing dot. *)
Theorem last_entry_for_a_key_wins routeList routes l1 l2 s0 s1 :
  main_routes routeList = Some routes ->
  Split routeList "," = l1 ++ (s0 +:+ String "=" s1) :: l2 ->
  lacks "=" s0 ->
  (forall t0 t1, lacks "=" t0 -> (t0 +:+ String "=" t1) ∈ l2 ->
                 route_key t0 <> route_key s0) ->
  routes !! route_key s0 = Some s1.
Proof.
  unfold main_routes. intros H Hsplit H0 Hlater.
  destruct (String.eqb routeList "") eqn:E; cbn [negb] in H.
  - apply String.eqb_eq in E. subst routeList.
    destruct l1 as [|x [|y l1]]; cbn in Hsplit; try discriminate.
    injection Hsplit as Hs _. by destruct s0.
  - rewrite Hsplit, main_routes_loop_app in H.
    destruct (main_routes_loop ∅ l1) as [r1|]; [|discriminate].
    cbn [main_routes_loop] in H.
    destruct (main_route r1 (s0 +:+ String "=" s1)) as [r2|] eqn:E2; [|discriminate].
    rewrite (main_routes_loop_other _ _ _ (route_key s0) H Hlater).
    apply main_route_Some in E2 as (t0 & t1 & Et & Ht0 & _ & ->).
    assert (t0 = s0 /\ t1 = s1) as [-> ->].
    { pose proof (SplitN2_cut "=" s0 s1 H0) as Ea.
      rewrite Et in Ea. rewrite SplitN2_cut in Ea by exact Ht0. by injection Ea. }
    apply lookup_insert_eq.
Qed.

Lemma last_entry_for_a_key_wins_witness :
  let routeList := "example.com=10.0.0.1:53,example.com.=10.0.0.2:53" in
  let routes : gmap string string := {["example.com." := "10.0.0.2:53"]} in
  main_routes routeList = Some routes
  /\ Split routeList "," = ["example.com=10.0.0.1:53"] ++ ("example.com." +:+ String "=" "10.0.0.2:53") :: []
  /\ lacks "=" "example.com."
  /\ (forall t0 t1, lacks "=" t0 -> (t0 +:+ String "=" t1) ∈ @nil string ->
                    route_key t0 <> route_key "example.com.")
  /\ routes !! route_key "example.com." = Some "10.0.0.2:53".
Proof.
  intros routeList routes.
  assert (Hm : main_routes routeList = Some routes) by (vm_compute; reflexivity).
  assert (Hl : forall t0 t1, lacks "=" t0 -> (t0 +:+ String "=" t1) ∈ @nil string ->
                             route_key t0 <> route_key "example.com.").
  { intros t0 t1 _ Hin. apply elem_of_nil in Hin. destruct Hin. }
  split; [exact Hm|].
  assert (Hs : Split routeList "," = ["example.com=10.0.0.1:53"] ++ ("example.com." +:+ String "=" "10.0.0.2:53") :: []) by (vm_compute; reflexivity).
  split; [exact Hs|]. split; [reflexivity|]. split; [exact Hl|].
  apply (last_entry_for_a_key_wins routeList routes
           ["example.com=10.0.0.1:53"] [] "example.com." "10.0.0.2:53" Hm Hs eq_refl Hl).
Defined.

(** ** Zone transfers over TCP *)

(** X9. For a transfer query that arrived over TCP, [proxy] opens one
    transfer with the upstream.  If that fails, it answers with the standard
    failure response; if it succeeds, the envelopes are relayed to the
    client, and when the relay fails the standard failure response follows
    what was already relayed.  The query is never sent as an ordinary
    exchange. *)
Theorem transfer_over_tcp net addr w req :
  isTransfer req = true ->
  is_TCPAddr (RemoteAddr w) = true ->
  (forall err, Transfer_In net req addr = inr err ->
     proxy net addr w req = [EvTransferIn req addr; EvHandleFailed req])
  /\ (forall c, Transfer_In net req addr = inl c ->
        Transfer_Out net w req c = None ->
        proxy net addr w req = [EvTransferIn req addr; EvTransferOut req c])
  /\ (forall c err, Transfer_In net req addr = inl c ->
        Transfer_Out net w req c = Some err ->
        proxy net addr w req
        = [EvTransferIn req addr; EvTransferOut req c; EvHandleFailed req])
  /\ upstream_contacts (proxy net addr w req) = 1%nat
  /\ forall n q a, EvExchange n q a ∉ proxy net addr w req.
Proof.
  intros Ht Htcp. unfold proxy. rewrite Ht, Htcp. cbn [String.eqb Ascii.eqb negb].
  change (negb (String.eqb "tcp" "tcp")) with false. cbn iota.
  split; [by intros err ->|]. split; [by intros c -> ->|].
  split; [by intros c err -> ->|].
  destruct (Transfer_In net req addr) as [c|err].
  - destruct (Transfer_Out net w req c); (split; [reflexivity|]);
      intros n q a Hin; repeat (apply elem_of_cons in Hin as [Hin|Hin]; [discriminate|]);
      by apply elem_of_nil in Hin.
  - split; [reflexivity|].
    intros n q a Hin; repeat (apply elem_of_cons in Hin as [Hin|Hin]; [discriminate|]);
      by apply elem_of_nil in Hin.
Qed.

Lemma transfer_over_tcp_witness :
  let w := {| RemoteAddr := TCPAddr "1.2.3.4:40000" |} in
  let req := axfr_query "example.com." in
  isTransfer req = true
  /\ is_TCPAddr (RemoteAddr w) = true
  /\ proxy sample_net "10.0.0.1:53" w req
     = [EvTransferIn req "10.0.0.1:53"; EvTransferOut req []].
Proof.
  intros w req. split; [reflexivity|]. split; [reflexivity|].
  destruct (transfer_over_tcp sample_net "10.0.0.1:53" w req eq_refl eq_refl)
    as (_ & H & _).
  exact (H [] eq_refl eq_refl).
Defined.

(** ** What the handler does on every query *)




(** X11. For a transfer query from a client whose remote address reads
    [host:port] or [[host]:port], the handler calls [Transfer.In], that is,
    it attempts the transfer, if and only if the client's address is a TCP
    address and [host] is on the allow-list.  Whether the call then reaches
    the upstream is the library's affair. *)
Theorem transfer_attempted_iff routes transferIPs range_map v net w req tr h p :
  isTransfer req = true ->
  host_port (Addr_String (RemoteAddr w)) h p ->
  route routes transferIPs range_map v net w req = Some tr ->
  calls_Transfer_In tr = true
  <-> is_TCPAddr (RemoteAddr w) = true /\ h ∈ transferIPs.
Proof.
  intros Ht Hhp Hr.
  assert (Hiff : allowed transferIPs w req = true <-> h ∈ transferIPs).
  { rewrite allowed_transfer by exact Ht.
    destruct (remote_host_spec w) as [Hform _]. by rewrite (Hform h p Hhp). }
  destruct (allowed transferIPs w req) eqn:Ha.
  - destruct (Questions req) as [|q0 qs] eqn:Hq;
      [rewrite isTransfer_nil in Ht by exact Hq; discriminate|].
    destruct (route_accepted routes transferIPs range_map v net w req q0 qs Hq Ha)
      as (addr & _ & Hr').
    rewrite Hr' in Hr. injection Hr as <-.
    unfold proxy. rewrite Ht.
    destruct (is_TCPAddr (RemoteAddr w)).
    + change (negb (String.eqb "tcp" "tcp")) with false. cbn iota.
      split; [intros _; split; [reflexivity|by apply Hiff]|reflexivity].
    + change (negb (String.eqb "udp" "tcp")) with true. cbn iota.
      split; [discriminate|]. by intros [? _].
  - rewrite route_refused in Hr by auto. injection Hr as <-.
    split; [discriminate|]. intros [_ Hin]. apply Hiff in Hin. discriminate.
Qed.

Lemma transfer_attempted_iff_witness :
  let w := {| RemoteAddr := TCPAddr "[2001:db8::7]:40000" |} in
  let req := axfr_query "sub.example.com." in
  let routes : gmap string string := {["example.com." := "10.0.0.1:53"]} in
  let tr := [EvTransferIn req "10.0.0.1:53"; EvTransferOut req []] in
  isTransfer req = true
  /\ host_port (Addr_String (RemoteAddr w)) "2001:db8::7" "40000"
  /\ route routes ["2001:db8::7"] map_to_list 0 sample_net w req = Some tr
  /\ (calls_Transfer_In tr = true
      <-> is_TCPAddr (RemoteAddr w) = true /\ "2001:db8::7" ∈ ["2001:db8::7"]).
Proof.
  intros w req routes tr.
  assert (Hhp : host_port (Addr_String (RemoteAddr w)) "2001:db8::7" "40000").
  { unfold host_port. repeat (split; [reflexivity|]). right. reflexivity. }
  assert (Hr : route routes ["2001:db8::7"] map_to_list 0 sample_net w req = Some tr)
    by (vm_compute; reflexivity).
  split; [reflexivity|]. split; [exact Hhp|]. split; [exact Hr|].
  exact (transfer_attempted_iff routes ["2001:db8::7"] map_to_list 0 sample_net w req tr
           "2001:db8::7" "40000" eq_refl Hhp Hr).
Defined.

(** ** Overlapping routes and the fallback *)

(** X12. When several configured suffixes match a name, the upstream
    chosen is that of one of them, and which one is left to the order in
    which the table is iterated: every matching route is chosen under some
    order, so a longer suffix is not preferred to a shorter one.  The random
    source plays no part as soon as one suffix matches. *)
Theorem overlapping_routes_any_match (routes : gmap string string) (qname : string) :
  (forall range_map v addr,
     range_map routes ≡ₚ map_to_list routes ->
     (exists name a, routes !! name = Some a /\ HasSuffix qname name = true) ->
     route_upstream routes range_map v qname = Some addr ->
     exists name, routes !! name = Some addr /\ HasSuffix qname name = true)
  /\ (forall name addr v,
        routes !! name = Some addr -> HasSuffix qname name = true ->
        exists range_map,
          range_map routes ≡ₚ map_to_list routes
          /\ route_upstream routes range_map v qname = Some addr).
Proof.
  split.
  - intros range_map v addr Hperm (name & a & Hin & Hs) Hup.
    unfold route_upstream in Hup.
    destruct (route_loop (range_map routes) qname) as [addr'|] eqn:E.
    + injection Hup as <-. apply route_loop_Some in E as (n & Hn & Hsn).
      exists n. split; [by apply (elem_of_range routes (range_map routes))|exact Hsn].
    + exfalso. rewrite route_loop_None in E.
      rewrite (E name a) in Hs; [discriminate|].
      by apply (elem_of_range routes (range_map routes)).
  - intros name addr v Hin Hs.
    exists (fun _ => (name, addr) :: map_to_list (delete name routes)).
    split; [by apply map_to_list_delete|].
    unfold route_upstream. cbn [route_loop]. by rewrite Hs.
Qed.

Example shorter_suffix_first :
  let routes : gmap string string :=
    <["com." := "10.0.0.9:53"]> {["example.com." := "10.0.0.1:53"]} in
  [("com.", "10.0.0.9:53"); ("example.com.", "10.0.0.1:53")] ≡ₚ map_to_list routes
  /\ route_upstream routes
       (fun _ => [("com.", "10.0.0.9:53"); ("example.com.", "10.0.0.1:53")])
       0 "www.example.com." = Some "10.0.0.9:53"
  /\ route_upstream routes
       (fun _ => [("example.com.", "10.0.0.1:53"); ("com.", "10.0.0.9:53")])
       0 "www.example.com." = Some "10.0.0.1:53".
Proof.
  intros routes. split; [|split; reflexivity].
  subst routes. rewrite map_to_list_insert by reflexivity.
  by rewrite map_to_list_singleton.
Qed.

(** X13. The fallback reaches the whole pool and nothing else: every entry
    of [publicServer] is returned for some draw of the random source, the
    entries without a port among them, and the result depends on the draw
    only through its remainder modulo the size of the pool. *)
Theorem randomPublicServer_covers_pool :
  (forall s, s ∈ publicServer <-> exists v, randomPublicServer v = Some s)
  /\ (forall v, randomPublicServer (v + Z.of_nat (length publicServer))
                = randomPublicServer v)
  /\ (forall v i, 0 <= i < Z.of_nat (length publicServer) ->
        v mod Z.of_nat (length publicServer) = i ->
        randomPublicServer v = publicServer !! Z.to_nat i).
Proof.
  assert (Hn : 0 < Z.of_nat (length publicServer)) by (cbn; lia).
  assert (Hidx : forall v i, 0 <= i < Z.of_nat (length publicServer) ->
            v mod Z.of_nat (length publicServer) = i ->
            randomPublicServer v = publicServer !! Z.to_nat i).
  { intros v i Hi Hv. unfold randomPublicServer, rand_Intn.
    replace (Z.of_nat (length publicServer) <=? 0) with false
      by (symmetry; apply Z.leb_gt; lia).
    rewrite Hv. unfold index.
    replace ((0 <=? i) && (i <? Z.of_nat (length publicServer))) with true; [reflexivity|].
    symmetry. apply andb_true_iff. split; [apply Z.leb_le|apply Z.ltb_lt]; lia. }
  split; [|split; [|exact Hidx]].
  - intros s. split.
    + intros [i Hi]%list_elem_of_lookup. exists (Z.of_nat i).
      pose proof (lookup_lt_Some _ _ _ Hi) as Hlt.
      rewrite (Hidx (Z.of_nat i) (Z.of_nat i)); [by rewrite Nat2Z.id|lia|].
      apply Z.mod_small. lia.
    + intros [v Hv]. destruct (randomPublicServer_total v) as (s' & Hs' & Hin).
      congruence.
  - intros v. set (n := Z.of_nat (length publicServer)) in *.
    pose proof (Z.mod_pos_bound v n Hn) as Hb.
    rewrite (Hidx (v + n) (v mod n)); [|exact Hb|].
    + symmetry. by apply Hidx.
    + rewrite <- (Z.mul_1_l n) at 1. by rewrite Z.mod_add by lia.
Qed.

(** X14. A route for the root domain is a catch-all: written with an empty
    domain or with ["."], its key is ["."], and once it is in the table no
    query whose name ends with a dot falls back to the public pool: the
    upstream is always the address of a configured route, the root route's
    own when no other suffix matches. *)
Theorem root_route_catches_all routes range_map v addr p :
  range_map routes ≡ₚ map_to_list routes ->
  routes !! "." = Some addr ->
  route_key "" = "." /\ route_key "." = "."
  /\ (exists name a, route_upstream routes range_map v (p +:+ ".") = Some a
                     /\ routes !! name = Some a
                     /\ HasSuffix (p +:+ ".") name = true)
  /\ ((forall name a, routes !! name = Some a -> name <> "." ->
                      HasSuffix (p +:+ ".") name = false) ->
      route_upstream routes range_map v (p +:+ ".") = Some addr).
Proof.
  intros Hperm Hroot. split; [reflexivity|]. split; [reflexivity|]. split.
  - unfold route_upstream.
    destruct (route_loop (range_map routes) (p +:+ ".")) as [a|] eqn:E.
    + apply route_loop_Some in E as (name & Hin & Hs). exists name, a.
      split; [reflexivity|]. split; [|exact Hs].
      by apply (elem_of_range routes (range_map routes)).
    + exfalso. rewrite route_loop_None in E.
      assert (Hs : HasSuffix (p +:+ ".") "." = false).
      { apply (E "." addr). by apply (elem_of_range routes (range_map routes)). }
      rewrite HasSuffix_app in Hs. discriminate.
  - intros Hothers. apply route_upstream_unique with (suffix := ".");
      [exact Hperm|exact Hroot|apply HasSuffix_app|exact Hothers].
Qed.

Lemma root_route_catches_all_witness :
  let routes : gmap string string := {["." := "10.0.0.1:53"]} in
  map_to_list routes ≡ₚ map_to_list routes
  /\ routes !! "." = Some "10.0.0.1:53"
  /\ main_routes "=10.0.0.1:53" = Some routes
  /\ exists name a, route_upstream routes map_to_list 5 ("other.net" +:+ ".") = Some a
                    /\ routes !! name = Some a
                    /\ HasSuffix ("other.net" +:+ ".") name = true.
Proof.
  intros routes. split; [reflexivity|]. split; [reflexivity|].
  split; [vm_compute; reflexivity|].
  destruct (root_route_catches_all routes map_to_list 5 "10.0.0.1:53" "other.net"
              (reflexivity _) eq_refl) as (_ & _ & H & _).
  exact H.
Defined.

(** ** One protocol per query *)

Ltac not_in_trace :=
  let Hin := fresh "Hin" in
  intros Hin;
  repeat (apply elem_of_cons in Hin as [Hin|Hin]; [discriminate|]);
  by apply elem_of_nil in Hin.

Lemma proxy_protocol net addr w req :
  (isTransfer req = false ->
   (forall q a, EvTransferIn q a ∉ proxy net addr w req)
   /\ (forall q c, EvTransferOut q c ∉ proxy net addr w req))
  /\ (isTransfer req = true ->
      (forall n q a, EvExchange n q a ∉ proxy net addr w req)
      /\ (forall resp, EvWriteMsg resp ∉ proxy net addr w req)).
Proof.
  unfold proxy. split; intros ->.
  - destruct (Exchange net _ req addr); split; intros; not_in_trace.
  - destruct (is_TCPAddr (RemoteAddr w)).
    + change (negb (String.eqb "tcp" "tcp")) with false. cbn iota.
      destruct (Transfer_In net req addr) as [c|err];
        [destruct (Transfer_Out net w req c)|]; split; intros; not_in_trace.
    + change (negb (String.eqb "udp" "tcp")) with true. cbn iota.
      split; intros; not_in_trace.
Qed.

(** X15. The classification decides the protocol: for an ordinary query
    the handler never opens or relays a zone transfer, and for a transfer
    query it never makes an ordinary exchange and never writes an upstream's
    single reply to the client. *)
Theorem route_one_protocol routes transferIPs range_map v net w req tr :
  route routes transferIPs range_map v net w req = Some tr ->
  (isTransfer req = false ->
   (forall q a, EvTransferIn q a ∉ tr) /\ (forall q c, EvTransferOut q c ∉ tr))
  /\ (isTransfer req = true ->
      (forall n q a, EvExchange n q a ∉ tr) /\ (forall resp, EvWriteMsg resp ∉ tr)).
Proof.
  intros Hr.
  assert (Hcases : tr = [EvHandleFailed req] \/ exists addr, tr = proxy net addr w req).
  { destruct (Questions req) as [|q0 qs] eqn:Hq;
      [|destruct (allowed transferIPs w req) eqn:Ha].
    - rewrite route_refused in Hr by auto. left. by injection Hr.
    - destruct (route_accepted routes transferIPs range_map v net w req q0 qs Hq Ha)
        as (addr & _ & Hr').
      right. exists addr. congruence.
    - rewrite route_refused in Hr by auto. left. by injection Hr. }
  destruct Hcases as [->|[addr ->]]; [|apply proxy_protocol].
  split; intros _; split; intros; not_in_trace.
Qed.

Lemma route_one_protocol_witness :
  let w := {| RemoteAddr := UDPAddr "192.0.2.9:40000" |} in
  let req := a_query "www.example.com." in
  let routes : gmap string string := {["example.com." := "10.0.0.1:53"]} in
  let tr := [EvExchange "udp" req "10.0.0.1:53"; EvHandleFailed req] in
  route routes [""] map_to_list 0 dead_net w req = Some tr
  /\ forall q a, EvTransferIn q a ∉ tr.
Proof.
  intros w req routes tr.
  assert (Hr : route routes [""] map_to_list 0 dead_net w req = Some tr)
    by (vm_compute; reflexivity).
  split; [exact Hr|].
  destruct (route_one_protocol routes [""] map_to_list 0 dead_net w req tr Hr)
    as [H _].
  exact (proj1 (H eq_refl)).
Defined.
